(** * fasttext_blog: a FastText-style baseline for knowledge-graph embeddings

    Shallow embedding of the notebook [fasttext_blog.ipynb]: the vocabulary
    built by the Keras [Tokenizer] over [np.unique] of the head/tail columns,
    the one-hot relation columns of [pd.get_dummies], the oversampling loop,
    the two nested [train_test_split] calls, the index encoding of the
    head/tail cells, and the forward pass
    Embedding -> GlobalAveragePooling1D -> Dense -> sigmoid.

    Conventions.
    - Strings are [string] (8-bit characters); [str.lower] is the ASCII
      lowering, which is what Python does on ASCII text.
    - A Python [dict] is an association list with distinct keys, kept in
      insertion order ([Tokenizer.word_counts] is an [OrderedDict]); where
      the notebook iterates over a plain [dict] ([entities_index.keys()]),
      the order of the iteration is an explicit argument, since Python 3.5
      does not fix it.
    - A cell of the data frame is carried by the text of its field; the
      fields that pandas reads as the null [NaN] are those of [is_na].
    - The tensors hold IEEE-754 binary32 numbers, modelled exactly as whole
      numbers of units of [2^-149] with round-to-nearest-even.
    - Python floats are IEEE-754 binary64; the two float literals that decide
      sizes ([frac=0.3], [test_size=0.1]) are carried as exact dyadic
      rationals and multiplied with round-to-nearest-even, in [Z].
    - Random draws are explicit: the generator is a function from its call
      counter and a population size to a rearrangement of [range(n)]. *)

From Stdlib Require Import ZArith String Ascii List Bool Lia Permutation.
From Stdlib Require Import Sorted Orders OrdersEx Mergesort.
From Stdlib Require Import Reals Lra.
Import ListNotations.
Local Open Scope Z_scope.

(** ** Outcomes of Python expressions *)

(** The error classes of the specification's taxonomy, and the one exception
    the notebook's own expressions can raise: the integer cast of a column
    holding a null ([astype('int')]). *)
Inductive error : Type :=
| MalformedInput
| MissingEntity
| OutOfRange
| NumericalInstability
| CastError.

Inductive outcome (A : Type) : Type :=
| Returned (a : A)
| Raised (e : error).
Arguments Returned {A} a.
Arguments Raised {A} e.

Definition bind {A B : Type} (m : outcome A) (k : A -> outcome B) : outcome B :=
  match m with
  | Returned a => k a
  | Raised e => Raised e
  end.

Notation "x <- m ;; k" := (bind m (fun x => k))
  (at level 61, m at next level, right associativity).

(** What [dict.get] hands back: the stored integer, or [None]. *)
Inductive pyval : Type :=
| PyNone
| PyInt (z : Z).

(** ** Triples *)

Record triple : Type := Triple {
  head : string;
  relation : string;
  tail : string
}.

(** ** Strings *)

Definition space : ascii := " "%char.

Definition lower_char (c : ascii) : ascii :=
  let n := N_of_ascii c in
  if ((65 <=? n) && (n <=? 90))%N then ascii_of_N (n + 32) else c.

(** [str.lower()] *)
Fixpoint lower (s : string) : string :=
  match s with
  | EmptyString => EmptyString
  | String c r => String (lower_char c) (lower r)
  end.

(** [s.split(sep)] for a one-character separator: every occurrence cuts, so
    adjacent separators give empty pieces and the result is never empty. *)
Fixpoint split (sep : ascii) (s : string) : list string :=
  match s with
  | EmptyString => [EmptyString]
  | String c r =>
      if Ascii.eqb c sep then EmptyString :: split sep r
      else match split sep r with
           | w :: ws => String c w :: ws
           | [] => [String c EmptyString]
           end
  end.

Definition nonempty (s : string) : bool :=
  match s with
  | EmptyString => false
  | String _ _ => true
  end.

(** [text_to_word_sequence(text, filters='', lower=True, split=" ")]: with no
    filter characters nothing is replaced; the text is lowered, cut at every
    space, and the empty pieces are dropped ([[i for i in seq if i]]). *)
Definition text_to_word_sequence (text : string) : list string :=
  filter nonempty (split space (lower text)).

(** ** [np.unique]: sort, then drop adjacent repetitions *)

Module StringOrder <: TotalLeBool.
Definition t := string.
Definition leb (x y : string) : bool :=
  match String_as_OT.compare x y with
  | Gt => false
  | _ => true
  end.
Theorem leb_total : forall x y, leb x y = true \/ leb y x = true.
Proof.
  intros x y. unfold leb.
  destruct (String_as_OT.compare_spec x y) as [E|L|L].
  - now left.
  - now left.
  - right. destruct (String_as_OT.compare_spec y x) as [E'|L'|L']; auto.
    exfalso. apply (StrictOrder_Irreflexive x).
    now transitivity y.
Qed.
End StringOrder.

Module StringSort := Sort StringOrder.

Fixpoint drop_repeats (l : list string) : list string :=
  match l with
  | [] => []
  | x :: r =>
      match r with
      | [] => [x]
      | y :: _ => if String.eqb x y then drop_repeats r else x :: drop_repeats r
      end
  end.

Definition np_unique (l : list string) : list string :=
  drop_repeats (StringSort.sort l).

(** [families[['head', 'tail']].values], flattened row by row. *)
Definition head_tail_values (families : list triple) : list string :=
  flat_map (fun t => [head t; tail t]) families.

Definition entities (families : list triple) : list string :=
  np_unique (head_tail_values families).

(** ** [Tokenizer.fit_on_texts] *)

(** [word_counts[w] += 1], or [word_counts[w] = 1] for a new key, which goes
    to the end of the ordered dict. *)
Fixpoint count_word (w : string) (word_counts : list (string * nat))
  : list (string * nat) :=
  match word_counts with
  | [] => [(w, 1%nat)]
  | (k, c) :: r =>
      if String.eqb k w then (k, S c) :: r else (k, c) :: count_word w r
  end.

Definition count_text (word_counts : list (string * nat)) (text : string)
  : list (string * nat) :=
  fold_left (fun wc w => count_word w wc) (text_to_word_sequence text) word_counts.

Definition word_counts (texts : list string) : list (string * nat) :=
  fold_left count_text texts [].

(** [wcounts.sort(key=lambda x: x[1], reverse=True)]: decreasing counts, and
    Python's sort keeps the original order among equal counts. *)
Fixpoint insert_by_count (x : string * nat) (l : list (string * nat))
  : list (string * nat) :=
  match l with
  | [] => [x]
  | y :: r =>
      if (snd x <? snd y)%nat then y :: insert_by_count x r else x :: l
  end.

Definition sort_by_count (l : list (string * nat)) : list (string * nat) :=
  fold_right insert_by_count [] l.

(** [zip(sorted_voc, range(i, ...))] *)
Fixpoint number_from (i : Z) (ws : list string) : list (string * Z) :=
  match ws with
  | [] => []
  | w :: r => (w, i) :: number_from (i + 1) r
  end.

(** [t.word_index] after [t.fit_on_texts(texts)]: index 0 is never given to
    a word.  The word limit passed to the constructor ([len(entities)]) only
    bounds [texts_to_sequences], which the notebook does not call. *)
Definition word_index (texts : list string) : list (string * Z) :=
  number_from 1 (map fst (sort_by_count (word_counts texts))).

Definition entities_index (families : list triple) : list (string * Z) :=
  word_index (entities families).

(** [d.get(k)] *)
Fixpoint get (k : string) (d : list (string * Z)) : option Z :=
  match d with
  | [] => None
  | (k', v) :: r => if String.eqb k' k then Some v else get k r
  end.

Definition keys (d : list (string * Z)) : list string := map fst d.

(** An entity string that the tokenizer keeps whole: not empty, no space. *)
Fixpoint has_space (s : string) : bool :=
  match s with
  | EmptyString => false
  | String c r => Ascii.eqb c space || has_space r
  end.

Definition single_token (s : string) : bool :=
  nonempty s && negb (has_space s).

Definition all_single_tokens (families : list triple) : bool :=
  forallb single_token (head_tail_values families).

(** ** binary64 arithmetic on sizes *)

(** Quotient of [num / den] ([den > 0]) rounded to the nearest integer, ties
    to the even one: Python 3's [round] on a float, and the rounding of a
    significand. *)
Definition round_half_even (num den : Z) : Z :=
  let q := num / den in
  let r := num mod den in
  if 2 * r <? den then q
  else if den <? 2 * r then q + 1
  else if Z.even q then q else q + 1.

(** The non-negative integer [m] rounded to 53 significant bits: the nearest
    binary64 value of an integer, or of an integer multiple of a fixed power
    of two. *)
Definition round53 (m : Z) : Z :=
  let s := Z.log2 m - 52 in
  if s <=? 0 then m else 2 ^ s * round_half_even m (2 ^ s).

(** A positive binary64 value [mant * 2^(-expo)]. *)
Record float64 : Type := Float64 {
  mant : Z;
  expo : Z
}.

(** The literal [0.3] is 0x1.3333333333333p-2. *)
Definition float_0_3 : float64 := {| mant := 5404319552844595; expo := 54 |}.

(** The literal [0.1] is 0x1.999999999999ap-4. *)
Definition float_0_1 : float64 := {| mant := 7205759403792794; expo := 56 |}.

(** [x * n] for a float [x] and a Python int [n >= 0]: [n] is converted to
    the nearest float and the exact product is rounded. *)
Definition fmul_int (x : float64) (n : Z) : float64 :=
  {| mant := round53 (mant x * round53 n); expo := expo x |}.

(** [round(x)] *)
Definition py_round (x : float64) : Z :=
  round_half_even (mant x) (2 ^ expo x).

(** [math.ceil(x)] *)
Definition py_ceil (x : float64) : Z :=
  - ((- mant x) / 2 ^ expo x).

(** A Python number passed as [frac]: the notebook passes the float [0.3]
    and the int [1]. *)
Inductive number : Type :=
| IntLit (k : Z)
| FloatLit (x : float64).

(** pandas, [NDFrame.sample]: [n = int(round(frac * axis_length))]. *)
Definition sample_size (frac : number) (axis_length : Z) : Z :=
  match frac with
  | IntLit k => k * axis_length
  | FloatLit x => py_round (fmul_int x axis_length)
  end.

(** scikit-learn, [_validate_shuffle_split] with a float [test_size] and no
    [train_size]: [n_test = ceil(test_size * n_samples)],
    [n_train = n_samples - n_test]. *)
Definition n_test_of (test_size : float64) (n_samples : nat) : nat :=
  Z.to_nat (py_ceil (fmul_int test_size (Z.of_nat n_samples))).

Definition n_train_of (test_size : float64) (n_samples : nat) : nat :=
  (n_samples - n_test_of test_size n_samples)%nat.

(** ** Data frames and random draws *)

(** A frame is its rows in order, each with its index label. *)
Definition frame (A : Type) : Type := list (nat * A).

Definition labels {A : Type} (df : frame A) : list nat := map fst df.
Definition values {A : Type} (df : frame A) : list A := map snd df.

(** [pd.read_csv(..., header=None)]: the rows get the labels 0, 1, ...; the
    cells are carried by the text of their fields (see [is_na] below for
    the fields that are read as the null). *)
Definition read_csv (rows : list triple) : frame triple :=
  combine (seq 0 (length rows)) rows.

(** [df.reset_index(drop=True)] *)
Definition reset_index {A : Type} (df : frame A) : frame A :=
  combine (seq 0 (length df)) (values df).

(** [df.append(other, ignore_index=True)] *)
Definition append_ignore_index {A : Type} (df other : frame A) : frame A :=
  reset_index (df ++ other).

(** Rows at the given positions ([take] / [iloc]).  Every position below
    comes from a rearrangement of [range(len(df))], so the branch for a
    position past the end is never taken. *)
Definition iloc {A : Type} (df : list A) (locs : list nat) : list A :=
  flat_map (fun i => match nth_error df i with
                     | Some r => [r]
                     | None => []
                     end) locs.

(** The global generator: [gen k n] is what the [k]-th call of
    [RandomState.permutation(n)] returns; the state is the call counter. *)
Definition generator : Type := nat -> nat -> list nat.

Definition rng_ok (gen : generator) : Prop :=
  forall k n, Permutation (gen k n) (seq 0 n).

(** [df.sample(frac=f)]: [choice(len, size=n, replace=False)] is the first
    [n] entries of a fresh permutation; the rows keep their labels. *)
Definition sample {A : Type} (gen : generator) (frac : number)
  (st : nat) (df : frame A) : frame A * nat :=
  let n := sample_size frac (Z.of_nat (length df)) in
  (iloc df (firstn (Z.to_nat n) (gen st (length df))), S st).

(** One pass of the loop body:
    [sample = df.sample(frac=0.3).reset_index(drop=True)]
    [df = df.append(sample, ignore_index=True)] *)
Definition oversample_step {A : Type} (gen : generator)
  (st : nat) (df : frame A) : frame A * nat :=
  let '(s, st') := sample gen (FloatLit float_0_3) st df in
  (append_ignore_index df (reset_index s), st').

(** [for i in range(iters): ...] *)
Fixpoint oversample {A : Type} (gen : generator) (iters : nat)
  (st : nat) (df : frame A) : frame A * nat :=
  match iters with
  | O => (df, st)
  | S k => let '(df', st') := oversample_step gen st df in
           oversample gen k st' df'
  end.

(** The sizes after 0, 1, ..., [iters] passes. *)
Fixpoint oversample_sizes {A : Type} (gen : generator) (iters : nat)
  (st : nat) (df : frame A) : list nat :=
  length df ::
  match iters with
  | O => []
  | S k => let '(df', st') := oversample_step gen st df in
           oversample_sizes gen k st' df'
  end.

(** [train_test_split(df, test_size=0.1)] through [ShuffleSplit]:
    [ind_test = permutation[:n_test]],
    [ind_train = permutation[n_test:(n_test + n_train)]];
    the result is [(train, test)]. *)
Definition train_test_split {A : Type} (gen : generator)
  (st : nat) (df : frame A) : (frame A * frame A) * nat :=
  let n_samples := length df in
  let n_test := n_test_of float_0_1 n_samples in
  let n_train := n_train_of float_0_1 n_samples in
  let permutation := gen st n_samples in
  let ind_test := firstn n_test permutation in
  let ind_train := firstn n_train (skipn n_test permutation) in
  ((iloc df ind_train, iloc df ind_test), S st).

Record splits (A : Type) : Type := Splits {
  training_data : frame A;
  validation_data : frame A;
  test_data : frame A
}.
Arguments Splits {A}.
Arguments training_data {A}.
Arguments validation_data {A}.
Arguments test_data {A}.

(** [df = df.sample(frac=1)]
    [tmp, test_data = train_test_split(df, test_size=0.1)]
    [training_data, validation_data = train_test_split(tmp, test_size=0.1)] *)
Definition split_dataset {A : Type} (gen : generator)
  (st : nat) (df : frame A) : splits A :=
  let '(shuffled, st1) := sample gen (IntLit 1) st df in
  let '((tmp, test), st2) := train_test_split gen st1 shuffled in
  let '((train, valid), _) := train_test_split gen st2 tmp in
  Splits train valid test.

(** ** One-hot relation columns *)

(** A row of the frame after [pd.get_dummies]: the two entity cells and one
    0/1 cell per relation column. *)
Record example : Type := Example_row {
  ex_head : string;
  ex_tail : string;
  ex_relation : list Z
}.

(** The frame keeps the text of every field.  [pd.read_csv] stores a field
    whose text is one of its null markers (the default [na_values], the
    empty field among them) as the null [NaN]: a cell is null exactly when
    its text passes [is_na]. *)
Definition na_values : list string :=
  [EmptyString; "#N/A"; "#N/A N/A"; "#NA"; "-1.#IND"; "-1.#QNAN"; "-NaN";
   "-nan"; "1.#IND"; "1.#QNAN"; "N/A"; "NA"; "NULL"; "NaN"; "n/a"; "nan";
   "null"]%string.

Definition is_na (field : string) : bool :=
  existsb (String.eqb field) na_values.




(** The categories of the [relation] column, sorted: its distinct values,
    the null left out ([dummy_na=False]). *)
Definition relation_columns (families : frame triple) : list string :=
  np_unique (filter (fun r => negb (is_na r))
                    (map relation (values families))).

Definition dummy_cells (columns : list string) (r : string) : list Z :=
  map (fun c => if String.eqb r c then 1 else 0) columns.

(** [pd.get_dummies(families, columns=['relation'])]: a row whose relation
    cell is null has no column of its own and gets 0 in every column. *)
Definition get_dummies (families : frame triple) : frame example :=
  map (fun row => (fst row,
                   {| ex_head := head (snd row);
                      ex_tail := tail (snd row);
                      ex_relation :=
                        dummy_cells (relation_columns families)
                                    (relation (snd row)) |}))
      families.

Definition sum_cells (cells : list Z) : Z := fold_right Z.add 0 cells.

Definition ones (cells : list Z) : nat := count_occ Z.eq_dec cells 1.

(** ** Index encoding of the head and tail cells *)

(** [entities_index.get(str(x).lower())]: [dict.get] does not raise; a
    missing key gives [None]. *)
Definition encode_lookup (vocab : list (string * Z)) (x : string)
  : outcome pyval :=
  Returned (match get (lower x) vocab with
            | Some i => PyInt i
            | None => PyNone
            end).

(** [.astype('int')] on the looked-up cells: a null cell cannot be cast
    (pandas raises a [ValueError] or a [TypeError], by the way the null is
    stored in the column). *)
Fixpoint astype_int (cells : list pyval) : outcome (list Z) :=
  match cells with
  | [] => Returned []
  | PyNone :: _ => Raised CastError
  | PyInt z :: r => zs <- astype_int r ;; Returned (z :: zs)
  end.

Fixpoint sequence {A : Type} (l : list (outcome A)) : outcome (list A) :=
  match l with
  | [] => Returned []
  | m :: r => a <- m ;; rest <- sequence r ;; Returned (a :: rest)
  end.

(** [df[['head', 'tail']].applymap(lambda x: ...).astype('int')], one
    [[head; tail]] row per example. *)
Definition encode_frame (vocab : list (string * Z)) (df : frame example)
  : outcome (list (list Z)) :=
  cells <- sequence (map (encode_lookup vocab)
                         (flat_map (fun e => [ex_head e; ex_tail e]) (values df))) ;;
  ints <- astype_int cells ;;
  Returned ((fix rows (l : list Z) : list (list Z) :=
               match l with
               | h :: t :: r => [h; t] :: rows r
               | _ => []
               end) ints).

(** ** The model *)


(** [input_dim=len(entities_index.keys())], [output_dim=200]: the shape of
    the embedding matrix. *)
Definition input_dim (vocab : list (string * Z)) : Z :=
  Z.of_nat (length (keys vocab)).

Definition embedding_shape (vocab : list (string * Z)) : Z * Z :=
  (input_dim vocab, 200).

(** The rows a matrix with [rows] rows has: [0 <= i < rows]. *)
Definition valid_row (rows i : Z) : bool := (0 <=? i) && (i <? rows).

(** [entities_index.get(word) - 1], the row read for [word] by the plot. *)
Definition plot_row (vocab : list (string * Z)) (word : string) : option Z :=
  option_map (fun i => i - 1) (get word vocab).

Section Forward.

(** The scalars of the tensors and their arithmetic (float32 in the run);
    [Fdiv_count x n] divides by the number of pooled steps. *)
Variable F : Type.
Variable Fzero : F.
Variable Fadd Fmul : F -> F -> F.
Variable Fdiv_count : F -> nat -> F.
Variable sigmoid : F -> F.

(** What the backend's gather does with an index that is not a row: the
    notebook does not fix it. *)
Variable out_of_range : outcome (list F).

(** [Embedding]: the row of the matrix at the index. *)
Definition Embedding (E : list (list F)) (i : Z) : outcome (list F) :=
  if valid_row (Z.of_nat (length E)) i then
    match nth_error E (Z.to_nat i) with
    | Some r => Returned r
    | None => out_of_range
    end
  else out_of_range.

Fixpoint vadd (u v : list F) : list F :=
  match u, v with
  | a :: u', b :: v' => Fadd a b :: vadd u' v'
  | _, _ => []
  end.

(** [GlobalAveragePooling1D]: the mean over the steps axis. *)
Definition GlobalAveragePooling1D (steps : list (list F)) : list F :=
  match steps with
  | [] => []
  | r :: rs => map (fun s => Fdiv_count s (length steps)) (fold_left vadd rs r)
  end.

(** [Dense(units)]: [dot(x, kernel) + bias], the kernel given by its rows
    (one per input coordinate). *)
Definition Dense (kernel : list (list F)) (bias : list F) (x : list F) : list F :=
  vadd (fold_left (fun acc xw => vadd acc (map (Fmul (fst xw)) (snd xw)))
                  (combine x kernel)
                  (map (fun _ => Fzero) bias))
       bias.

Definition Activation_sigmoid (x : list F) : list F := map sigmoid x.

(** The model on one input row of indices. *)
Definition forward (E kernel : list (list F)) (bias : list F)
  (input : list Z) : outcome (list F) :=
  x <- sequence (map (Embedding E) input) ;;
  Returned (Activation_sigmoid (Dense kernel bias (GlobalAveragePooling1D x))).

Definition score (E kernel : list (list F)) (bias : list F) (h t : Z)
  : outcome (list F) :=
  forward E kernel bias [h; t].

End Forward.

(** Two lists of index labels without a common label. *)
Definition disjoint (l1 l2 : list nat) : Prop :=
  forall i, In i l1 -> In i l2 -> False.

(** A generator for examples: every call returns [range(n)] itself. *)
Definition gen_id : generator := fun _ n => seq 0 n.

(** A generator for examples: even calls return [range(n)] reversed. *)
Definition gen_rev : generator :=
  fun k n => if Nat.even k then rev (seq 0 n) else seq 0 n.

Definition one_row : frame nat := [(0%nat, 7%nat)].
Definition two_rows : frame nat := [(0%nat, 7%nat); (1%nat, 8%nat)].
Definition ten_rows : frame nat := combine (seq 0 10) (seq 100 10).

(** The notebook from the parsed triples to the three parts: one-hot
    columns, 20 oversampling passes, shuffle and the two splits. *)
Definition augmented (gen : generator) (rows : list triple) : frame example * nat :=
  oversample gen 20 0 (get_dummies (read_csv rows)).

Definition pipeline (gen : generator) (rows : list triple) : splits example :=
  split_dataset gen (snd (augmented gen rows)) (fst (augmented gen rows)).

(** What [get_dummies] makes of the triple [t]: the head and tail cells
    are kept, there is one 0/1 cell per column, all of them 0 when the
    relation cell is null and exactly one of them 1 otherwise. *)
Definition encodes_relation (columns : list string) (t : triple)
  (e : example) : Prop :=
  ex_head e = head t /\ ex_tail e = tail t /\
  length (ex_relation e) = length columns /\
  Forall (fun c => c = 0 \/ c = 1) (ex_relation e) /\
  if is_na (relation t)
  then ones (ex_relation e) = 0%nat /\ sum_cells (ex_relation e) = 0
  else ones (ex_relation e) = 1%nat /\ sum_cells (ex_relation e) = 1.

(** Two triples, the second with a null relation field. *)
Definition null_relation : list triple :=
  [Triple "cha" "ni" "art"; Triple "vic" "NA" "col"]%string.

(** The forward pass in exact real arithmetic. *)
Definition sigmoid_real (x : R) : R := (/ (1 + exp (- x)))%R.

Definition score_real (out_of_range : outcome (list R))
  (E kernel : list (list R)) (bias : list R) (h t : Z) : outcome (list R) :=
  score R 0%R Rplus Rmult (fun x n => (x / INR n)%R) sigmoid_real
        out_of_range E kernel bias h t.

(** ** float32 *)

(** The tensors of the run hold IEEE-754 binary32 numbers.  A finite float32
    is a whole number of units of [2^-149] (the smallest subnormal), with at
    most 24 significant bits and below [2^128]; [units] is the magnitude in
    these units, so 1.0 is [2^149] units. *)
Inductive float32 : Type :=
| Finite32 (negative : bool) (units : Z)
| Inf32 (negative : bool)
| NaN32.

(** The quotient [num / den >= 0] rounded to nearest, ties to even, on the
    float32 grid: whole units below [2^24] units (the subnormals and the
    first binade), 24 significant bits above. *)
Definition round24 (num den : Z) : Z :=
  let s := Z.log2 (num / den) - 23 in
  if s <=? 0 then round_half_even num den
  else 2 ^ s * round_half_even num (den * 2 ^ s).

(** [2^128], in units: what rounds up to it overflows to an infinity. *)
Definition overflow32 : Z := 2 ^ 277.

Definition make32 (negative : bool) (num den : Z) : float32 :=
  let k := round24 num den in
  if k <? overflow32 then Finite32 negative k else Inf32 negative.

Definition signed (negative : bool) (units : Z) : Z :=
  if negative then - units else units.

Definition zero32 : float32 := Finite32 false 0.
Definition one32 : float32 := Finite32 false (2 ^ 149).

Definition neg32 (x : float32) : float32 :=
  match x with
  | Finite32 a k => Finite32 (negb a) k
  | Inf32 a => Inf32 (negb a)
  | NaN32 => NaN32
  end.

Definition add32 (x y : float32) : float32 :=
  match x, y with
  | NaN32, _ | _, NaN32 => NaN32
  | Inf32 a, Inf32 b => if Bool.eqb a b then Inf32 a else NaN32
  | Inf32 a, Finite32 _ _ => Inf32 a
  | Finite32 _ _, Inf32 b => Inf32 b
  | Finite32 a j, Finite32 b k =>
      let z := signed a j + signed b k in
      if z =? 0 then Finite32 (a && b) 0
      else make32 (z <? 0) (Z.abs z) 1
  end.

Definition mul32 (x y : float32) : float32 :=
  match x, y with
  | NaN32, _ | _, NaN32 => NaN32
  | Inf32 a, Inf32 b => Inf32 (xorb a b)
  | Inf32 a, Finite32 b k | Finite32 b k, Inf32 a =>
      if k =? 0 then NaN32 else Inf32 (xorb a b)
  | Finite32 a j, Finite32 b k => make32 (xorb a b) (j * k) (2 ^ 149)
  end.

Definition div32 (x y : float32) : float32 :=
  match x, y with
  | NaN32, _ | _, NaN32 => NaN32
  | Inf32 _, Inf32 _ => NaN32
  | Inf32 a, Finite32 b _ => Inf32 (xorb a b)
  | Finite32 a _, Inf32 b => Finite32 (xorb a b) 0
  | Finite32 a j, Finite32 b k =>
      if k =? 0 then (if j =? 0 then NaN32 else Inf32 (xorb a b))
      else make32 (xorb a b) (j * 2 ^ 149) k
  end.

Definition of_nat32 (n : nat) : float32 :=
  make32 false (Z.of_nat n * 2 ^ 149) 1.

(** The mean over [n] pooled steps. *)
Definition mean32 (x : float32) (n : nat) : float32 := div32 x (of_nat32 n).

(** The backend's logistic function, as Keras' [Activation('sigmoid')]
    reaches it ([K.sigmoid]): [1 / (1 + exp(-x))] evaluated in float32, the
    exponential being the backend's own, [exp32]. *)
Definition sigmoid32 (exp32 : float32 -> float32) (x : float32) : float32 :=
  div32 one32 (add32 one32 (exp32 (neg32 x))).

(** The forward pass in float32. *)
Definition score32 (exp32 : float32 -> float32)
  (out_of_range : outcome (list float32))
  (E kernel : list (list float32)) (bias : list float32) (h t : Z)
  : outcome (list float32) :=
  score float32 zero32 add32 mul32 mean32 (sigmoid32 exp32)
        out_of_range E kernel bias h t.

(** A float32 exponential for examples: [exp x] evaluated in fixed point
    with 200 fractional bits (the series of [exp (x / 256)], squared eight
    times) and rounded to nearest.  Where the result is to be an infinity
    or zero for certain (from 89 on, up to -104) it is returned at once.
    The exponentials of the backends agree with it up to their error in the
    last place. *)
Definition exp_scale : Z := 2 ^ 200.

Fixpoint exp_series (fuel : nat) (i term t acc : Z) : Z :=
  match fuel with
  | O => acc
  | S f => let term' := term * t / (i * exp_scale) in
           exp_series f (i + 1) term' t (acc + term')
  end.

Definition exp_fixed (units : Z) : Z :=
  let t := units * 2 ^ 43 in
  let s := exp_series 60 1 exp_scale t exp_scale in
  Nat.iter 8 (fun s => s * s / exp_scale) s.

Definition exp32_nearest (x : float32) : float32 :=
  match x with
  | NaN32 => NaN32
  | Inf32 true => zero32
  | Inf32 false => Inf32 false
  | Finite32 a k =>
      let u := signed a k in
      if u <=? - (104 * 2 ^ 149) then zero32
      else if 89 * 2 ^ 149 <=? u then Inf32 false
      else make32 false (exp_fixed u) (2 ^ 51)
  end.

(** A float32 that is zero, positive or plus infinity. *)
Definition nonneg32 (y : float32) : Prop :=
  y = Inf32 false \/ exists k, y = Finite32 false k /\ 0 <= k.

(** A float32 in the closed interval from 0.0 to 1.0. *)
Definition in_unit_interval (c : float32) : Prop :=
  exists k, c = Finite32 false k /\ 0 <= k <= 2 ^ 149.

(** The whole number [n] as a float32 ([n] small enough to be exact). *)
Definition int32 (n : Z) : float32 :=
  Finite32 (n <? 0) (Z.abs n * 2 ^ 149).

Definition E_pair : list (list float32) := [[int32 1]; [int32 3]].

Definition E3 : list (list R) := [[1; 2]; [3; 4]; [5; 6]]%R.
Definition K3 : list (list R) := [[1; 0; 2]; [0; 1; 3]]%R.
Definition b3 : list R := [0; 1; 2]%R.

(** The 24 people of the Families data. *)
Definition people : list string :=
  ["cha"; "art"; "chs"; "jen"; "mat"; "sop"; "ang"; "alf"; "and"; "che";
   "chr"; "col"; "emi"; "fra"; "gin"; "jam"; "luc"; "maa"; "mar"; "pen";
   "pie"; "rob"; "tom"; "vic"]%string.

Definition spaced : list triple :=
  [Triple "mona lisa" "painted_by" "leo"]%string.

(** A vocabulary and a frame for examples. *)
Definition small_vocab : list (string * Z) :=
  entities_index [Triple "alf" "fa" "and"]%string.

Definition stray_frame : frame example :=
  [(0%nat, {| ex_head := "alf"; ex_tail := "zed"; ex_relation := [1] |})]%string.

Definition family_rows : list triple :=
  [Triple "cha" "ni" "art"; Triple "cha" "ni" "chs"; Triple "sop" "ni" "ang";
   Triple "vic" "fa" "col"; Triple "pen" "mo" "vic"]%string.

(** ** Further statements of the notebook *)

(** [word_counts[w]] of the fitted tokenizer, 0 for a word it has not seen. *)
Fixpoint count_of (w : string) (wc : list (string * nat)) : nat :=
  match wc with
  | [] => 0%nat
  | (k, c) :: r => if String.eqb k w then c else count_of w r
  end.

(** The words of all the texts, in reading order. *)
Definition all_words (texts : list string) : list string :=
  flat_map text_to_word_sequence texts.

(** The size after one oversampling pass over [n] rows. *)
Definition grow (n : nat) : nat :=
  (n + Z.to_nat (sample_size (FloatLit float_0_3) (Z.of_nat n)))%nat.

(** [df.filter(regex=("relation"))]: the relation columns of every row (the
    names of the two other columns, [head] and [tail], do not match). *)
Definition filter_relation (df : frame example) : list (list Z) :=
  map ex_relation (values df).

(** [embeddings[j, :]] on a numpy array: a negative [j] counts from the last
    row, and an index outside [-rows, rows) raises [IndexError] ([None]). *)
Definition numpy_row {F : Type} (E : list (list F)) (j : Z) : option (list F) :=
  let rows := Z.of_nat (length E) in
  if (- rows <=? j) && (j <? rows)
  then nth_error E (Z.to_nat (if j <? 0 then j + rows else j))
  else None.

(** [embeddings[entities_index.get(word) - 1, :]] *)
Definition plot_token {F : Type} (E : list (list F))
  (vocab : list (string * Z)) (word : string) : option (list F) :=
  match get word vocab with
  | Some i => numpy_row E (i - 1)
  | None => None
  end.

Fixpoint collect {A B : Type} (f : A -> option B) (l : list A)
  : option (list B) :=
  match l with
  | [] => Some []
  | x :: r =>
      match f x, collect f r with
      | Some y, Some ys => Some (y :: ys)
      | _, _ => None
      end
  end.

(** The loop before the plot:
    [for word in entities_index.keys():]
    [    labels.append(word)]
    [    token = embeddings[entities_index.get(word) - 1, :]]
    [    tokens.append(token)]
    giving [(labels, tokens)].  [entities_index] is a plain [dict]: under
    the notebook's Python 3.5 its keys come out in an order that the
    insertions do not fix, so the order of the iteration is an argument,
    [order], some rearrangement of the keys. *)
Definition plot_points {F : Type} (E : list (list F))
  (vocab : list (string * Z)) (order : list string)
  : option (list string * list (list F)) :=
  option_map (fun tokens => (order, tokens))
             (collect (plot_token E vocab) order).

(** The encoding of one triple by [get_dummies] over the given columns. *)
Definition encode_triple (columns : list string) (t : triple) : example :=
  {| ex_head := head t;
     ex_tail := tail t;
     ex_relation := dummy_cells columns (relation t) |}.

(** Both entity cells of an example are keys of the vocabulary, in lower
    case. *)
Definition present (vocab : list (string * Z)) (e : example) : Prop :=
  In (lower (ex_head e)) (keys vocab) /\ In (lower (ex_tail e)) (keys vocab).

(** A row of the encoded frame holds the stored indices of the example's
    head and tail. *)
Definition encoded_as (vocab : list (string * Z)) (e : example)
  (row : list Z) : Prop :=
  exists h t, row = [h; t] /\
              get (lower (ex_head e)) vocab = Some h /\
              get (lower (ex_tail e)) vocab = Some t.

(** * Properties *)

(** ** Rounding *)

Lemma round_half_even_floor (num den : Z) :
  num / den <= round_half_even num den <= num / den + 1.
Proof.
  unfold round_half_even.
  destruct (2 * (num mod den) <? den); [lia|].
  destruct (den <? 2 * (num mod den)); [lia|].
  destruct (Z.even (num / den)); lia.
Qed.

Lemma round_half_even_exact (num den : Z) :
  0 < den -> num mod den = 0 -> round_half_even num den = num / den.
Proof.
  intros Hden Hr. unfold round_half_even. rewrite Hr.
  destruct (Z.ltb_spec (2 * 0) den); [reflexivity|lia].
Qed.

Lemma round_half_even_above_half (num den : Z) :
  0 < den -> den < 2 * num -> 1 <= round_half_even num den.
Proof.
  intros Hden Hhalf.
  pose proof (Z.div_mod num den ltac:(lia)) as Hdm.
  pose proof (Z.mod_pos_bound num den Hden) as Hmod.
  assert (Hq : 0 <= num / den) by (apply Z.div_pos; lia).
  unfold round_half_even.
  destruct (Z.ltb_spec (2 * (num mod den)) den) as [Hlt|Hge].
  - assert (num / den <> 0) by nia. lia.
  - destruct (Z.ltb_spec den (2 * (num mod den))); [lia|].
    destruct (Z.even (num / den)) eqn:Hev; [|lia].
    assert (num / den <> 0) by nia. lia.
Qed.

(** The frame of a rounding to 53 bits: either [m] is short enough to be
    kept, or it lies in a binade [2^(52+s) <= m < 2^(53+s)] with [s > 0] and
    is rounded to a multiple of [2^s]. *)
Lemma round53_cases (m : Z) :
  round53 m = m \/
  exists s, 0 < s /\ 2 ^ 52 * 2 ^ s <= m < 2 ^ 53 * 2 ^ s /\
            round53 m = 2 ^ s * round_half_even m (2 ^ s).
Proof.
  unfold round53.
  destruct (Z.leb_spec (Z.log2 m - 52) 0) as [Hs|Hs]; [now left|right].
  exists (Z.log2 m - 52). split; [lia|]. split; [|reflexivity].
  assert (Hm : 0 < m).
  { destruct (Z.ltb_spec 0 m); [assumption|].
    rewrite Z.log2_nonpos in Hs by lia. lia. }
  destruct (Z.log2_spec m Hm) as [Hlo Hhi].
  rewrite <- !Z.pow_add_r by lia.
  replace (52 + (Z.log2 m - 52)) with (Z.log2 m) by lia.
  replace (53 + (Z.log2 m - 52)) with (Z.succ (Z.log2 m)) by lia.
  lia.
Qed.

Lemma round53_small (m : Z) : m < 2 ^ 53 -> round53 m = m.
Proof.
  intros Hm. destruct (round53_cases m) as [E|(s & Hs & [Hlo Hhi] & _)]; [exact E|].
  assert (2 ^ 1 <= 2 ^ s) by (apply Z.pow_le_mono_r; lia).
  change (2 ^ 52) with 4503599627370496 in Hlo.
  change (2 ^ 53) with 9007199254740992 in Hm.
  nia.
Qed.

(** Rounding never crosses a binary64 value [a * 2^t]. *)
Lemma round53_lower (a t m : Z) :
  0 <= a < 2 ^ 53 -> 0 <= t -> a * 2 ^ t <= m -> a * 2 ^ t <= round53 m.
Proof.
  intros Ha Ht Hd.
  destruct (round53_cases m) as [E|(s & Hs & [Hlo Hhi] & E)]; rewrite E; [exact Hd|].
  set (P := 2 ^ s) in *.
  assert (HP : 0 < P) by (apply Z.pow_pos_nonneg; lia).
  pose proof (round_half_even_floor m P) as [Hfl _].
  pose proof (Z.mul_div_le m P HP) as Hq1.
  pose proof (Z.mul_succ_div_gt m P HP) as Hq2.
  set (q := m / P) in *.
  assert (Hq : 2 ^ 52 <= q) by nia.
  assert (Hgoal : a * 2 ^ t <= P * q); [|nia].
  destruct (Z.le_gt_cases s t) as [Hst|Hst].
  - replace t with ((t - s) + s) in * by lia.
    rewrite Z.pow_add_r in * by lia. fold P in Hd |- *.
    assert (0 <= 2 ^ (t - s)) by (apply Z.pow_nonneg; lia).
    set (k := a * 2 ^ (t - s)) in *.
    replace (a * (2 ^ (t - s) * P)) with (k * P) in * by (unfold k; ring).
    assert (k < q + 1) by nia. nia.
  - assert (Hpow : 2 * 2 ^ t <= P).
    { replace (2 * 2 ^ t) with (2 ^ (t + 1)) by (rewrite Z.pow_add_r by lia; lia).
      apply Z.pow_le_mono_r; lia. }
    assert (0 < 2 ^ t) by (apply Z.pow_pos_nonneg; lia).
    change (2 ^ 53) with 9007199254740992 in Ha.
    change (2 ^ 52) with 4503599627370496 in Hq.
    nia.
Qed.

Lemma round53_upper (a t m : Z) :
  0 <= a < 2 ^ 53 -> 0 <= t -> m <= a * 2 ^ t -> round53 m <= a * 2 ^ t.
Proof.
  intros Ha Ht Hd.
  destruct (round53_cases m) as [E|(s & Hs & [Hlo Hhi] & E)]; rewrite E; [exact Hd|].
  set (P := 2 ^ s) in *.
  assert (HP : 0 < P) by (apply Z.pow_pos_nonneg; lia).
  destruct (Z.le_gt_cases s t) as [Hst|Hst].
  - replace t with ((t - s) + s) in * by lia.
    rewrite Z.pow_add_r in * by lia. fold P in Hd |- *.
    assert (0 <= 2 ^ (t - s)) by (apply Z.pow_nonneg; lia).
    set (k := a * 2 ^ (t - s)) in *.
    replace (a * (2 ^ (t - s) * P)) with (k * P) in * by (unfold k; ring).
    pose proof (Z.div_mod m P ltac:(lia)) as Hdm.
    pose proof (Z.mod_pos_bound m P HP) as Hmod.
    destruct (Z.eq_dec (m mod P) 0) as [Hr|Hr].
    + rewrite round_half_even_exact by assumption. nia.
    + pose proof (round_half_even_floor m P) as [_ Hce].
      assert (m / P < k) by nia. nia.
  - exfalso.
    assert (Hpow : 2 * 2 ^ t <= P).
    { replace (2 * 2 ^ t) with (2 ^ (t + 1)) by (rewrite Z.pow_add_r by lia; lia).
      apply Z.pow_le_mono_r; lia. }
    assert (0 < 2 ^ t) by (apply Z.pow_pos_nonneg; lia).
    change (2 ^ 53) with 9007199254740992 in Ha.
    change (2 ^ 52) with 4503599627370496 in Hlo.
    nia.
Qed.

Lemma round53_nonneg (m : Z) : 0 <= m -> 0 <= round53 m.
Proof.
  intros Hm. apply (round53_lower 0 0 m); [change (2 ^ 53) with 9007199254740992| |]; lia.
Qed.

(** ** Sizes *)

Lemma sample_size_0_3_pos (len : Z) :
  2 <= len -> 1 <= sample_size (FloatLit float_0_3) len.
Proof.
  intros Hlen. unfold sample_size, py_round, fmul_int, float_0_3; cbn [mant expo].
  assert (H2 : 2 <= round53 len).
  { apply (round53_lower 2 0 len); [change (2 ^ 53) with 9007199254740992| |]; lia. }
  assert (Hv : 9 * 2 ^ 50 <= round53 (5404319552844595 * round53 len)).
  { apply round53_lower; [change (2 ^ 53) with 9007199254740992; lia|lia|].
    change (2 ^ 50) with 1125899906842624. lia. }
  apply round_half_even_above_half.
  - reflexivity.
  - change (2 ^ 50) with 1125899906842624 in Hv.
    change (2 ^ 54) with 18014398509481984. lia.
Qed.

Lemma sample_size_0_3_le (len : Z) :
  0 <= len -> 0 <= sample_size (FloatLit float_0_3) len <= len.
Proof.
  intros Hlen. unfold sample_size, py_round, fmul_int, float_0_3; cbn [mant expo].
  pose proof (round53_nonneg len Hlen) as Hr.
  set (v := round53 (5404319552844595 * round53 len)).
  assert (Hv0 : 0 <= v) by (apply round53_nonneg; lia).
  pose proof (round_half_even_floor v (2 ^ 54)) as [Hfl Hce].
  assert (Hq0 : 0 <= v / 2 ^ 54) by (apply Z.div_pos; [assumption|reflexivity]).
  split; [lia|].
  destruct (Z.eq_dec len 0) as [->|Hne]; [reflexivity|].
  (* a power of two above [len], at most twice [len] *)
  set (k := Z.succ (Z.log2 len)).
  destruct (Z.log2_spec len ltac:(lia)) as [Hlo Hhi]. fold k in Hhi.
  assert (Hk : 0 <= k) by (pose proof (Z.log2_nonneg len); lia).
  assert (Hpk : 2 ^ k = 2 * 2 ^ Z.log2 len).
  { unfold k. rewrite Z.pow_succ_r by apply Z.log2_nonneg. reflexivity. }
  assert (Hrl : round53 len <= 1 * 2 ^ k).
  { apply round53_upper; [change (2 ^ 53) with 9007199254740992; lia|lia|lia]. }
  assert (Hv : v <= 5404319552844595 * 2 ^ k).
  { apply round53_upper; [change (2 ^ 53) with 9007199254740992; lia|lia|nia]. }
  assert (Hlt : v / 2 ^ 54 < len); [|lia].
  apply Z.div_lt_upper_bound; [reflexivity|].
  change (2 ^ 54) with 18014398509481984. lia.
Qed.

Lemma py_ceil_bounds (x : float64) (j : Z) :
  0 <= expo x ->
  (j * 2 ^ expo x < mant x -> j + 1 <= py_ceil x) /\
  (j * 2 ^ expo x <= mant x -> j <= py_ceil x) /\
  (mant x <= j * 2 ^ expo x -> py_ceil x <= j).
Proof.
  intros He. unfold py_ceil.
  assert (HD : 0 < 2 ^ expo x) by (apply Z.pow_pos_nonneg; lia).
  pose proof (Z.mul_div_le (- mant x) _ HD).
  pose proof (Z.mul_succ_div_gt (- mant x) _ HD).
  repeat split; intros; nia.
Qed.

(** The test part is a tenth of the frame, up to one row. *)
Lemma n_test_tenth (n : nat) :
  Z.of_nat n < 2 ^ 49 ->
  Z.of_nat n <= 10 * Z.of_nat (n_test_of float_0_1 n) <= Z.of_nat n + 10.
Proof.
  intros Hn. unfold n_test_of.
  set (N := Z.of_nat n) in *.
  assert (HN : 0 <= N) by (unfold N; lia).
  change (2 ^ 49) with 562949953421312 in Hn.
  set (x := fmul_int float_0_1 N).
  assert (Hm : mant x = round53 (7205759403792794 * N)).
  { unfold x, fmul_int, float_0_1; cbn [mant expo].
    rewrite (round53_small N) by (change (2 ^ 53) with 9007199254740992; lia).
    reflexivity. }
  assert (He : expo x = 56) by reflexivity.
  pose proof (Z.div_mod N 10 ltac:(lia)) as Hdm.
  pose proof (Z.mod_pos_bound N 10 ltac:(lia)) as Hr.
  set (j := N / 10) in *. set (r := N mod 10) in *.
  assert (Hj : 0 <= j) by (unfold j; apply Z.div_pos; lia).
  destruct (py_ceil_bounds x j ltac:(rewrite He; lia)) as (Hgt & Hge & _).
  destruct (py_ceil_bounds x (j + 1) ltac:(rewrite He; lia)) as (_ & _ & Hle).
  rewrite He, Hm in Hgt, Hge, Hle.
  assert (Hup : round53 (7205759403792794 * N) <= (j + 1) * 2 ^ 56).
  { apply round53_upper; [change (2 ^ 53) with 9007199254740992; lia|lia|].
    change (2 ^ 56) with 72057594037927936. lia. }
  assert (Hlo : j * 2 ^ 56 <= round53 (7205759403792794 * N)).
  { apply round53_lower; [change (2 ^ 53) with 9007199254740992; lia|lia|].
    change (2 ^ 56) with 72057594037927936. lia. }
  specialize (Hle Hup). specialize (Hge Hlo).
  assert (Hc0 : 0 <= py_ceil x) by lia.
  rewrite Z2Nat.id by assumption.
  destruct (Z.eq_dec r 0) as [Hr0|Hr0]; [lia|].
  assert (Hlo' : (16 * j + 1) * 2 ^ 52 <= round53 (7205759403792794 * N)).
  { apply round53_lower; [change (2 ^ 53) with 9007199254740992; lia|lia|].
    change (2 ^ 52) with 4503599627370496. lia. }
  assert (Hstrict : j * 2 ^ 56 < round53 (7205759403792794 * N)).
  { change (2 ^ 52) with 4503599627370496 in Hlo'.
    change (2 ^ 56) with 72057594037927936. lia. }
  specialize (Hgt Hstrict). lia.
Qed.

Lemma n_test_le (n : nat) :
  Z.of_nat n < 2 ^ 49 -> (n_test_of float_0_1 n <= n)%nat.
Proof.
  intros Hn. pose proof (n_test_tenth n Hn) as [_ Hup].
  unfold n_test_of in *.
  set (N := Z.of_nat n) in *.
  change (2 ^ 49) with 562949953421312 in Hn.
  set (x := fmul_int float_0_1 N) in *.
  assert (Hm : mant x = round53 (7205759403792794 * N)).
  { unfold x, fmul_int, float_0_1; cbn [mant expo].
    rewrite (round53_small N) by (change (2 ^ 53) with 9007199254740992; lia).
    reflexivity. }
  destruct (py_ceil_bounds x N ltac:(cbn; lia)) as (_ & _ & Hle).
  rewrite Hm in Hle. change (expo x) with 56 in Hle.
  assert (round53 (7205759403792794 * N) <= N * 2 ^ 56).
  { apply round53_upper; [change (2 ^ 53) with 9007199254740992; lia|lia|].
    change (2 ^ 56) with 72057594037927936. lia. }
  lia.
Qed.

(** ** Frames *)

Section Positions.
Context {A : Type}.
Implicit Types (locs : list nat).

Lemma iloc_app (l : list A) locs1 locs2 :
  iloc l (locs1 ++ locs2) = iloc l locs1 ++ iloc l locs2.
Proof. unfold iloc. apply flat_map_app. Qed.

Lemma iloc_Permutation (l : list A) locs1 locs2 :
  Permutation locs1 locs2 -> Permutation (iloc l locs1) (iloc l locs2).
Proof.
  induction 1 as [|i p q _ IH|i j p|p q r _ IH1 _ IH2]; cbn.
  - constructor.
  - now apply Permutation_app_head.
  - rewrite !app_assoc. apply Permutation_app_tail, Permutation_app_comm.
  - now transitivity (iloc l q).
Qed.

Lemma iloc_seq_from (pre l : list A) :
  iloc (pre ++ l) (seq (length pre) (length l)) = l.
Proof.
  revert pre. induction l as [|x l IH]; intros pre; [reflexivity|].
  cbn [length seq iloc flat_map].
  rewrite nth_error_app2, Nat.sub_diag by lia. cbn.
  f_equal. specialize (IH (pre ++ [x])).
  rewrite <- app_assoc, length_app in IH. cbn in IH.
  replace (length pre + 1)%nat with (S (length pre)) in IH by lia.
  exact IH.
Qed.

Lemma iloc_all (l : list A) p :
  Permutation p (seq 0 (length l)) -> Permutation (iloc l p) l.
Proof.
  intros Hp. rewrite (iloc_Permutation l _ _ Hp).
  pose proof (iloc_seq_from [] l) as E. cbn [app length] in E.
  now rewrite E.
Qed.

Lemma iloc_In (l : list A) locs x : In x (iloc l locs) -> In x l.
Proof.
  unfold iloc. rewrite in_flat_map. intros (i & _ & Hx).
  destruct (nth_error l i) as [y|] eqn:E; [|contradiction].
  destruct Hx as [<-|[]]. eapply nth_error_In; eassumption.
Qed.

Lemma iloc_length (l : list A) locs :
  Forall (fun i => (i < length l)%nat) locs -> length (iloc l locs) = length locs.
Proof.
  unfold iloc. induction 1 as [|i locs Hi _ IH]; [reflexivity|].
  cbn [flat_map]. apply nth_error_Some in Hi.
  destruct (nth_error l i); [|contradiction].
  rewrite length_app, IH. reflexivity.
Qed.

End Positions.

Lemma rng_ok_length gen k n : rng_ok gen -> length (gen k n) = n.
Proof. intros H. now rewrite (Permutation_length (H k n)), length_seq. Qed.

Lemma rng_ok_bound gen k n :
  rng_ok gen -> Forall (fun i => (i < n)%nat) (gen k n).
Proof.
  intros H. apply Forall_forall. intros i Hi.
  apply (Permutation_in _ (H k n)), in_seq in Hi. lia.
Qed.

Lemma Forall_firstn (P : nat -> Prop) k (l : list nat) :
  Forall P l -> Forall P (firstn k l).
Proof.
  rewrite !Forall_forall. intros H x Hx. apply H.
  rewrite <- (firstn_skipn k l). apply in_or_app. now left.
Qed.

Section Frames.
Context {A : Type}.
Implicit Types (df : frame A).

Lemma reset_index_length df : length (reset_index df) = length df.
Proof.
  unfold reset_index, values. rewrite length_combine, length_seq, length_map. lia.
Qed.

Lemma reset_index_values df : values (reset_index df) = values df.
Proof.
  unfold reset_index. set (v := values df).
  replace (length df) with (length v) by apply length_map.
  unfold values at 1. generalize 0%nat.
  induction v as [|x v IH]; intros s; cbn; [reflexivity|]. now rewrite IH.
Qed.

Lemma reset_index_labels df : labels (reset_index df) = seq 0 (length df).
Proof.
  unfold reset_index. set (v := values df).
  replace (length df) with (length v) by apply length_map.
  unfold labels. generalize 0%nat.
  induction v as [|x v IH]; intros s; cbn; [reflexivity|]. now rewrite IH.
Qed.

Lemma sample_rows gen frac st df x :
  In x (fst (sample gen frac st df)) -> In x df.
Proof. cbn. apply iloc_In. Qed.

Lemma sample_length gen frac st df :
  rng_ok gen ->
  0 <= sample_size frac (Z.of_nat (length df)) <= Z.of_nat (length df) ->
  length (fst (sample gen frac st df)) =
  Z.to_nat (sample_size frac (Z.of_nat (length df))).
Proof.
  intros Hg Hn. cbn.
  rewrite iloc_length by (apply Forall_firstn, rng_ok_bound, Hg).
  rewrite length_firstn, rng_ok_length by assumption. lia.
Qed.

Lemma sample_all gen st df :
  rng_ok gen -> Permutation (fst (sample gen (IntLit 1) st df)) df.
Proof.
  intros Hg. unfold sample, sample_size. cbn [fst].
  rewrite Z.mul_1_l, Nat2Z.id.
  rewrite firstn_all2 by (rewrite rng_ok_length by assumption; lia).
  apply iloc_all, Hg.
Qed.

Lemma oversample_step_values gen st df :
  values (fst (oversample_step gen st df)) =
  values df ++ values (fst (sample gen (FloatLit float_0_3) st df)).
Proof.
  unfold oversample_step. cbn [sample fst].
  unfold append_ignore_index. rewrite reset_index_values.
  unfold values at 1. rewrite map_app. fold (values df). f_equal.
  apply reset_index_values.
Qed.

Lemma oversample_step_length gen st df :
  rng_ok gen ->
  length (fst (oversample_step gen st df)) =
  (length df + Z.to_nat (sample_size (FloatLit float_0_3) (Z.of_nat (length df))))%nat.
Proof.
  intros Hg.
  rewrite <- (length_map snd (fst (oversample_step gen st df))).
  fold (values (fst (oversample_step gen st df))).
  rewrite oversample_step_values, length_app.
  unfold values. rewrite !length_map. f_equal.
  apply sample_length; [assumption|].
  apply sample_size_0_3_le. lia.
Qed.

Lemma oversample_step_labels gen st df :
  labels (fst (oversample_step gen st df)) =
  seq 0 (length (fst (oversample_step gen st df))).
Proof.
  unfold oversample_step. cbn [sample fst].
  unfold append_ignore_index. now rewrite reset_index_labels, reset_index_length.
Qed.

Lemma oversample_sizes_head gen iters st df :
  exists rest, oversample_sizes gen iters st df = length df :: rest.
Proof. destruct iters; cbn; eauto. Qed.

Lemma oversample_sizes_length gen iters st df :
  length (oversample_sizes gen iters st df) = S iters.
Proof.
  revert st df. induction iters as [|k IH]; intros st df; [reflexivity|].
  cbn [oversample_sizes]. destruct (oversample_step gen st df) as [df' st'].
  cbn. now rewrite IH.
Qed.

Lemma train_test_split_partition gen st df :
  rng_ok gen ->
  let res := fst (train_test_split gen st df) in
  Permutation (fst res ++ snd res) df.
Proof.
  intros Hg. cbn.
  set (n := length df). set (p := gen st n).
  set (k := n_test_of float_0_1 n).
  rewrite (@firstn_all2 _ (n_train_of float_0_1 n) (skipn k p)).
  2:{ rewrite length_skipn. unfold p. rewrite rng_ok_length by assumption.
      unfold n_train_of. fold k. lia. }
  rewrite <- iloc_app.
  apply iloc_all.
  rewrite Permutation_app_comm, firstn_skipn. apply Hg.
Qed.

Lemma train_test_split_sizes gen st df :
  rng_ok gen ->
  (n_test_of float_0_1 (length df) <= length df)%nat ->
  let res := fst (train_test_split gen st df) in
  length (snd res) = n_test_of float_0_1 (length df) /\
  length (fst res) = (length df - n_test_of float_0_1 (length df))%nat.
Proof.
  intros Hg Hle. cbn.
  set (n := length df) in *. set (p := gen st n).
  set (k := n_test_of float_0_1 n) in *.
  assert (Hp : length p = n) by (apply rng_ok_length, Hg).
  assert (Hb : Forall (fun i => (i < n)%nat) p) by (apply rng_ok_bound, Hg).
  split.
  - rewrite iloc_length by (apply Forall_firstn, Hb).
    rewrite length_firstn. lia.
  - rewrite iloc_length.
    + rewrite length_firstn, length_skipn. unfold n_train_of. fold k. lia.
    + apply Forall_firstn. apply Forall_forall. intros i Hi.
      rewrite Forall_forall in Hb. apply Hb.
      rewrite <- (firstn_skipn k p). apply in_or_app. now right.
Qed.

End Frames.

Lemma gen_id_ok : rng_ok gen_id.
Proof. intros k n. apply Permutation_refl. Qed.

Lemma gen_rev_ok : rng_ok gen_rev.
Proof.
  intros k n. unfold gen_rev. destruct (Nat.even k).
  - apply Permutation_sym, Permutation_rev.
  - apply Permutation_refl.
Qed.

Lemma NoDup_app_disjoint (l1 l2 : list nat) : NoDup (l1 ++ l2) -> disjoint l1 l2.
Proof.
  induction l1 as [|x l1 IH]; intros H i H1 H2; [contradiction|].
  cbn in H. inversion H as [|? ? Hx Hr]; subst.
  destruct H1 as [->|H1].
  - apply Hx, in_or_app. now right.
  - exact (IH Hr i H1 H2).
Qed.

(** ** Oversampling *)

(** C7 (amended). Each pass of the oversampling loop draws
    [round(0.3 * len)] rows of the current accumulated frame and appends
    them, so the size never decreases from one pass to the next, and it
    strictly increases at every pass when the frame has at least two rows. *)
Theorem oversample_growth {A : Type} (gen : generator) (iters st : nat)
  (df : frame A) :
  rng_ok gen ->
  (let s := fst (sample gen (FloatLit float_0_3) st df) in
   values (fst (oversample_step gen st df)) = values df ++ values s /\
   incl s df /\
   Z.of_nat (length s) = sample_size (FloatLit float_0_3) (Z.of_nat (length df))) /\
  length (oversample_sizes gen iters st df) = S iters /\
  Sorted le (oversample_sizes gen iters st df) /\
  ((2 <= length df)%nat -> Sorted lt (oversample_sizes gen iters st df)).
Proof.
  intros Hg. split; [|split; [apply oversample_sizes_length|]].
  - cbv zeta. split; [apply oversample_step_values|]. split.
    + intros x. apply sample_rows.
    + pose proof (sample_size_0_3_le (Z.of_nat (length df)) ltac:(lia)).
      rewrite sample_length by assumption. lia.
  - revert st df. induction iters as [|k IH]; intros st df.
    + cbn. split; repeat constructor.
    + cbn [oversample_sizes].
      pose proof (oversample_step_length gen st df Hg) as Hlen.
      destruct (oversample_step gen st df) as [df' st']. cbn [fst] in Hlen.
      destruct (IH st' df') as [Hle Hlt].
      destruct (oversample_sizes_head gen k st' df') as [rest Hrest].
      rewrite Hrest in *.
      split.
      * constructor; [assumption|]. constructor. lia.
      * intros H2.
        pose proof (sample_size_0_3_pos (Z.of_nat (length df)) ltac:(lia)).
        constructor; [apply Hlt; lia|]. constructor. lia.
Qed.

Lemma oversample_growth_witness :
  rng_ok gen_rev /\ Sorted lt (oversample_sizes gen_rev 20 0 two_rows).
Proof.
  split; [exact gen_rev_ok|].
  apply (oversample_growth gen_rev 20 0 two_rows gen_rev_ok).
  cbn. lia.
Defined.

(** C7, as stated, fails on a one-row frame: [round(0.3 * 1) = 0], the
    sample is empty and the size stays 1 through all 20 passes. *)
Lemma oversample_one_row_stalls :
  rng_ok gen_id /\
  sample_size (FloatLit float_0_3) 1 = 0 /\
  oversample_sizes gen_id 20 0 one_row = repeat 1%nat 21 /\
  ~ (length one_row < length (fst (oversample_step gen_id 0 one_row)))%nat.
Proof.
  split; [exact gen_id_ok|]. split; [reflexivity|]. split; [reflexivity|].
  cbn. lia.
Qed.

(** The recorded run: 112 rows grow to the 21367 rows that [df.shape]
    shows after the loop. *)
Example oversample_sizes_recorded :
  Nat.iter 20 (fun n => n + sample_size (FloatLit float_0_3) n) 112 = 21367.
Proof. vm_compute. reflexivity. Qed.

(** ** Splitting *)

(** The two nested splits of a shuffled frame with distinct index labels
    partition it. *)
Lemma split_dataset_parts {A : Type} (gen : generator) (st : nat)
  (df : frame A) :
  rng_ok gen -> NoDup (labels df) ->
  let s := split_dataset gen st df in
  let n := length df in
  let n_te := length (test_data s) in
  let n_va := length (validation_data s) in
  let n_tr := length (training_data s) in
  Permutation (training_data s ++ validation_data s ++ test_data s) df /\
  disjoint (labels (training_data s)) (labels (validation_data s)) /\
  disjoint (labels (training_data s)) (labels (test_data s)) /\
  disjoint (labels (validation_data s)) (labels (test_data s)) /\
  (n_tr + n_va + n_te = n)%nat /\
  (Z.of_nat n < 2 ^ 49 ->
   n_te = n_test_of float_0_1 n /\
   n_va = n_test_of float_0_1 (n - n_te) /\
   Z.of_nat n <= 10 * Z.of_nat n_te <= Z.of_nat n + 10 /\
   Z.of_nat (n - n_te) <= 10 * Z.of_nat n_va <= Z.of_nat (n - n_te) + 10).
Proof.
  intros Hg Hnd. unfold split_dataset.
  pose proof (sample_all gen st df Hg) as Hsh.
  destruct (sample gen (IntLit 1) st df) as [shuffled st1]. cbn [fst] in Hsh.
  pose proof (train_test_split_partition gen st1 shuffled Hg) as Hp1.
  pose proof (train_test_split_sizes gen st1 shuffled Hg) as Hs1.
  destruct (train_test_split gen st1 shuffled) as [[tmp test] st2].
  cbn [fst snd] in Hp1, Hs1.
  pose proof (train_test_split_partition gen st2 tmp Hg) as Hp2.
  pose proof (train_test_split_sizes gen st2 tmp Hg) as Hs2.
  destruct (train_test_split gen st2 tmp) as [[train valid] st3].
  cbn [fst snd] in Hp2, Hs2. cbn [training_data validation_data test_data].
  cbv zeta.
  assert (Hall : Permutation (train ++ valid ++ test) df).
  { rewrite app_assoc. rewrite Hp2. rewrite Hp1. exact Hsh. }
  assert (Hlab : NoDup (labels train ++ labels valid ++ labels test)).
  { unfold labels. rewrite <- !map_app.
    apply (Permutation_NoDup (l := map fst df)); [|exact Hnd].
    apply Permutation_map, Permutation_sym, Hall. }
  assert (Hlen : (length train + length valid + length test = length df)%nat).
  { rewrite <- (Permutation_length Hall), !length_app. lia. }
  split; [exact Hall|].
  split.
  { apply NoDup_app_disjoint. rewrite app_assoc in Hlab.
    now apply NoDup_app_remove_r in Hlab. }
  split.
  { intros i H1 H2. apply (NoDup_app_disjoint _ _ Hlab i H1).
    apply in_or_app. now right. }
  split.
  { apply NoDup_app_disjoint. now apply NoDup_app_remove_l in Hlab. }
  split; [exact Hlen|].
  intros Hn.
  assert (Hshl : length shuffled = length df) by apply (Permutation_length Hsh).
  rewrite Hshl in Hs1.
  destruct (Hs1 (n_test_le _ Hn)) as [Hte Htmp].
  rewrite Htmp in Hs2.
  assert (Hn' : Z.of_nat (length df - n_test_of float_0_1 (length df)) < 2 ^ 49) by lia.
  destruct (Hs2 (n_test_le _ Hn')) as [Hva _].
  rewrite Hte, Hva.
  split; [reflexivity|]. split; [reflexivity|].
  split; [apply n_test_tenth, Hn|apply n_test_tenth, Hn'].
Qed.

Lemma combine_seq_labels {A : Type} (l : list A) (start : nat) :
  map fst (combine (seq start (length l)) l) = seq start (length l).
Proof.
  revert start. induction l as [|x l IH]; intros start; cbn; [reflexivity|].
  now rewrite IH.
Qed.

Lemma get_dummies_labels (families : frame triple) :
  labels (get_dummies families) = labels families.
Proof. unfold labels, get_dummies. rewrite map_map. reflexivity. Qed.

Lemma oversample_labels {A : Type} (gen : generator) (iters st : nat)
  (df : frame A) :
  NoDup (labels df) -> NoDup (labels (fst (oversample gen iters st df))).
Proof.
  revert st df. induction iters as [|k IH]; intros st df Hnd; [exact Hnd|].
  cbn [oversample].
  pose proof (oversample_step_labels gen st df) as Hl.
  destruct (oversample_step gen st df) as [df' st']. cbn [fst] in Hl.
  apply IH. rewrite Hl. apply seq_NoDup.
Qed.

Lemma augmented_labels (gen : generator) (rows : list triple) :
  NoDup (labels (fst (augmented gen rows))).
Proof.
  unfold augmented. apply oversample_labels.
  rewrite get_dummies_labels. unfold labels, read_csv.
  rewrite combine_seq_labels. apply seq_NoDup.
Qed.

(** C8. The two nested splits partition the shuffled augmented dataset: the
    three parts are a rearrangement of it, their index labels are pairwise
    disjoint, their sizes add up to its size, the test part is a tenth of
    the whole and the validation part a tenth of the remainder, each up to
    one row of rounding. *)
Theorem split_dataset_partition (gen : generator) (rows : list triple) :
  rng_ok gen ->
  let df := fst (augmented gen rows) in
  let s := pipeline gen rows in
  let n := length df in
  let n_te := length (test_data s) in
  let n_va := length (validation_data s) in
  let n_tr := length (training_data s) in
  Permutation (training_data s ++ validation_data s ++ test_data s) df /\
  disjoint (labels (training_data s)) (labels (validation_data s)) /\
  disjoint (labels (training_data s)) (labels (test_data s)) /\
  disjoint (labels (validation_data s)) (labels (test_data s)) /\
  (n_tr + n_va + n_te = n)%nat /\
  (Z.of_nat n < 2 ^ 49 ->
   n_te = n_test_of float_0_1 n /\
   n_va = n_test_of float_0_1 (n - n_te) /\
   Z.of_nat n <= 10 * Z.of_nat n_te <= Z.of_nat n + 10 /\
   Z.of_nat (n - n_te) <= 10 * Z.of_nat n_va <= Z.of_nat (n - n_te) + 10).
Proof.
  intros Hg. unfold pipeline.
  exact (split_dataset_parts gen (snd (augmented gen rows))
           (fst (augmented gen rows)) Hg (augmented_labels gen rows)).
Qed.

Lemma split_dataset_partition_witness :
  let s := pipeline gen_rev family_rows in
  rng_ok gen_rev /\
  Permutation (training_data s ++ validation_data s ++ test_data s)
              (fst (augmented gen_rev family_rows)) /\
  disjoint (labels (validation_data s)) (labels (test_data s)).
Proof.
  cbv zeta. split; [exact gen_rev_ok|].
  pose proof (split_dataset_partition gen_rev family_rows gen_rev_ok) as H.
  cbv zeta in H. split; apply H.
Defined.

(** A small frame split without oversampling: ten rows give one test row,
    one validation row and eight training rows. *)
Example split_ten_rows :
  let s := split_dataset gen_rev 0 ten_rows in
  (length (training_data s), length (validation_data s), length (test_data s)) =
  (8%nat, 1%nat, 1%nat).
Proof. reflexivity. Qed.

(** The recorded run: 21367 rows give 2137 test rows, then 1923 validation
    rows out of the remaining 19230. *)
Example split_sizes_recorded :
  py_ceil (fmul_int float_0_1 21367) = 2137 /\
  py_ceil (fmul_int float_0_1 (21367 - 2137)) = 1923.
Proof. split; vm_compute; reflexivity. Qed.

(** ** Strings and [np.unique] *)

Lemma lower_char_not_space (c : ascii) :
  Ascii.eqb c space = false -> Ascii.eqb (lower_char c) space = false.
Proof.
  destruct c as [[] [] [] [] [] [] [] []]; intros H; try discriminate H;
    vm_compute; reflexivity.
Qed.

Lemma lower_no_space (s : string) :
  has_space s = false -> has_space (lower s) = false.
Proof.
  induction s as [|c s IH]; [reflexivity|]. cbn.
  intros H. apply orb_false_iff in H as [Hc Hs].
  now rewrite (lower_char_not_space c Hc), (IH Hs).
Qed.

Lemma lower_nonempty (s : string) : nonempty (lower s) = nonempty s.
Proof. destruct s; reflexivity. Qed.

Lemma split_no_space (s : string) :
  has_space s = false -> split space s = [s].
Proof.
  induction s as [|c s IH]; [reflexivity|]. cbn.
  intros H. apply orb_false_iff in H as [Hc Hs].
  now rewrite Hc, (IH Hs).
Qed.

Lemma single_token_sequence (e : string) :
  single_token e = true -> text_to_word_sequence e = [lower e].
Proof.
  unfold single_token, text_to_word_sequence. intros H.
  apply andb_true_iff in H as [Hne Hsp]. apply negb_true_iff in Hsp.
  rewrite (split_no_space _ (lower_no_space _ Hsp)). cbn.
  now rewrite lower_nonempty, Hne.
Qed.

Lemma leb_cases (x y : string) :
  StringOrder.leb x y = true <-> x = y \/ String_as_OT.lt x y.
Proof.
  unfold StringOrder.leb.
  destruct (String_as_OT.compare_spec x y) as [E|L|L].
  - split; auto.
  - split; auto.
  - split; [discriminate|]. intros [E|L'].
    + subst. exfalso. exact (StrictOrder_Irreflexive y L).
    + exfalso. apply (StrictOrder_Irreflexive x). now transitivity y.
Qed.

Lemma leb_trans (x y z : string) :
  StringOrder.leb x y = true -> StringOrder.leb y z = true ->
  StringOrder.leb x z = true.
Proof.
  rewrite !leb_cases. intros [->|Hxy] [->|Hyz]; auto.
  right. now transitivity y.
Qed.

Lemma leb_antisym (x y : string) :
  StringOrder.leb x y = true -> StringOrder.leb y x = true -> x = y.
Proof.
  rewrite !leb_cases. intros [->|Hxy] [E|Hyx]; auto.
  exfalso. apply (StrictOrder_Irreflexive x). now transitivity y.
Qed.

Lemma sort_strongly_sorted (l : list string) :
  StronglySorted (fun x y => StringOrder.leb x y = true) (StringSort.sort l).
Proof.
  apply Sorted_StronglySorted.
  - intros x y z. apply leb_trans.
  - apply StringSort.Sorted_sort.
Qed.

Lemma drop_repeats_In (l : list string) (x : string) :
  In x (drop_repeats l) <-> In x l.
Proof.
  induction l as [|a l IH]; [reflexivity|].
  cbn [drop_repeats]. destruct l as [|b l]; [reflexivity|].
  destruct (String.eqb_spec a b) as [->|Hne].
  - rewrite IH. cbn. tauto.
  - cbn [In]. rewrite IH. cbn. tauto.
Qed.

Lemma drop_repeats_NoDup (l : list string) :
  StronglySorted (fun x y => StringOrder.leb x y = true) l ->
  NoDup (drop_repeats l).
Proof.
  induction 1 as [|a l Hs IH Hall]; [constructor|].
  cbn [drop_repeats]. destruct l as [|b l]; [repeat constructor; intros []|].
  destruct (String.eqb_spec a b) as [->|Hne]; [exact IH|].
  constructor; [|exact IH].
  rewrite drop_repeats_In. intros Hin.
  inversion Hall as [|? ? Hab Hal]; subst.
  inversion Hs as [|? ? _ Hbl]; subst.
  destruct Hin as [E|Hin]; [now subst|].
  rewrite Forall_forall in Hal, Hbl.
  apply Hne, leb_antisym; [exact Hab|]. now apply Hbl.
Qed.

Lemma np_unique_In (l : list string) (x : string) :
  In x (np_unique l) <-> In x l.
Proof.
  unfold np_unique. rewrite drop_repeats_In.
  pose proof (StringSort.Permuted_sort l) as Hp.
  split; apply Permutation_in; [now apply Permutation_sym|exact Hp].
Qed.

Lemma np_unique_NoDup (l : list string) : NoDup (np_unique l).
Proof. apply drop_repeats_NoDup, sort_strongly_sorted. Qed.

(** ** The tokenizer's dictionary *)

Lemma count_word_keys (w k : string) (wc : list (string * nat)) :
  In k (map fst (count_word w wc)) <-> k = w \/ In k (map fst wc).
Proof.
  induction wc as [|[k' c] r IH]; cbn.
  - split; [intros [H|[]]; auto|intros [H|[]]; auto].
  - destruct (String.eqb_spec k' w) as [->|Hne]; cbn.
    + split; [tauto|]. intros [->|H]; auto.
    + rewrite IH. tauto.
Qed.

Lemma count_word_NoDup (w : string) (wc : list (string * nat)) :
  NoDup (map fst wc) -> NoDup (map fst (count_word w wc)).
Proof.
  induction wc as [|[k' c] r IH]; cbn; intros H.
  - repeat constructor. intros [].
  - inversion H as [|? ? Hk Hr]; subst.
    destruct (String.eqb_spec k' w) as [->|Hne]; cbn.
    + now constructor.
    + constructor; [|now apply IH].
      rewrite count_word_keys. intros [E|Hin]; [now apply Hne|contradiction].
Qed.

Lemma count_words_keys (ws : list string) (wc : list (string * nat)) :
  NoDup (map fst wc) ->
  NoDup (map fst (fold_left (fun wc w => count_word w wc) ws wc)) /\
  forall k, In k (map fst (fold_left (fun wc w => count_word w wc) ws wc)) <->
            In k ws \/ In k (map fst wc).
Proof.
  revert wc. induction ws as [|w ws IH]; intros wc Hnd; cbn [fold_left].
  - split; [exact Hnd|]. intros k. cbn. tauto.
  - destruct (IH (count_word w wc) (count_word_NoDup w wc Hnd)) as [H1 H2].
    split; [exact H1|]. intros k. rewrite H2, count_word_keys. cbn.
    intuition congruence.
Qed.

Lemma count_texts_keys (texts : list string) (wc : list (string * nat)) :
  NoDup (map fst wc) ->
  NoDup (map fst (fold_left count_text texts wc)) /\
  forall k, In k (map fst (fold_left count_text texts wc)) <->
            (exists text, In text texts /\ In k (text_to_word_sequence text)) \/
            In k (map fst wc).
Proof.
  revert wc. induction texts as [|t texts IH]; intros wc Hnd; cbn [fold_left].
  - split; [exact Hnd|]. intros k. split; [auto|]. intros [(x & [] & _)|H]; exact H.
  - destruct (count_words_keys (text_to_word_sequence t) wc Hnd) as [H1 H2].
    fold (count_text wc t) in H1, H2.
    destruct (IH (count_text wc t) H1) as [H3 H4].
    split; [exact H3|]. intros k. rewrite H4, H2. split.
    + intros [(x & Hx & Hk)|[Hk|Hk]].
      * left. exists x. split; [now right|exact Hk].
      * left. exists t. split; [now left|exact Hk].
      * now right.
    + intros [(x & [<-|Hx] & Hk)|Hk].
      * right. now left.
      * left. now exists x.
      * right. now right.
Qed.

Lemma insert_by_count_Permutation (x : string * nat) (l : list (string * nat)) :
  Permutation (insert_by_count x l) (x :: l).
Proof.
  induction l as [|y r IH]; cbn [insert_by_count]; [apply Permutation_refl|].
  destruct (snd x <? snd y)%nat; [|apply Permutation_refl].
  rewrite IH. apply perm_swap.
Qed.

Lemma sort_by_count_Permutation (l : list (string * nat)) :
  Permutation (sort_by_count l) l.
Proof.
  induction l as [|x l IH]; cbn; [constructor|].
  rewrite insert_by_count_Permutation. now constructor.
Qed.

Lemma number_from_keys (i : Z) (ws : list string) :
  keys (number_from i ws) = ws.
Proof.
  revert i. induction ws as [|w r IH]; intros i; cbn; [reflexivity|].
  f_equal. apply IH.
Qed.

Lemma number_from_In (w : string) (v i : Z) (ws : list string) :
  In (w, v) (number_from i ws) <->
  i <= v /\ nth_error ws (Z.to_nat (v - i)) = Some w.
Proof.
  revert i. induction ws as [|x r IH]; intros i; cbn [number_from In].
  - split; [intros []|]. intros [_ H]. now destruct (Z.to_nat (v - i)).
  - rewrite IH. destruct (Z.eq_dec v i) as [->|Hne].
    + rewrite Z.sub_diag. cbn. split.
      * intros [E|[H _]]; [|lia]. inversion E; subst. split; [lia|reflexivity].
      * intros [_ E]. left. congruence.
    + split.
      * intros [E|[H1 H2]]; [inversion E; subst; contradiction|].
        split; [lia|].
        replace (Z.to_nat (v - i)) with (S (Z.to_nat (v - (i + 1)))) by lia.
        exact H2.
      * intros [H1 H2]. right. split; [lia|].
        replace (Z.to_nat (v - i)) with (S (Z.to_nat (v - (i + 1)))) in H2 by lia.
        exact H2.
Qed.

Lemma get_In (k : string) (v : Z) (d : list (string * Z)) :
  NoDup (keys d) -> (get k d = Some v <-> In (k, v) d).
Proof.
  induction d as [|[k' v'] r IH]; cbn; intros Hnd.
  - split; [discriminate|intros []].
  - inversion Hnd as [|? ? Hk Hr]; subst.
    destruct (String.eqb_spec k' k) as [->|Hne].
    + split.
      * intros E. left. congruence.
      * intros [E|Hin]; [congruence|].
        exfalso. apply Hk. change k with (fst (k, v)). now apply in_map.
    + rewrite (IH Hr). split; [auto|]. intros [E|Hin]; [congruence|exact Hin].
Qed.

Lemma get_None (k : string) (d : list (string * Z)) :
  get k d = None <-> ~ In k (keys d).
Proof.
  induction d as [|[k' v'] r IH]; cbn.
  - tauto.
  - destruct (String.eqb_spec k' k) as [->|Hne].
    + split; [discriminate|]. intros H. exfalso. apply H. now left.
    + rewrite IH. tauto.
Qed.

(** The dictionary of a fitted tokenizer: its keys are the distinct words of
    the texts and their values are 1, 2, ..., in order. *)
Lemma word_index_keys (texts : list string) :
  NoDup (keys (word_index texts)) /\
  forall w, In w (keys (word_index texts)) <->
            exists text, In text texts /\ In w (text_to_word_sequence text).
Proof.
  unfold word_index. rewrite number_from_keys.
  destruct (count_texts_keys texts [] (NoDup_nil _)) as [Hnd Hin].
  fold (word_counts texts) in Hnd, Hin.
  pose proof (Permutation_map fst (sort_by_count_Permutation (word_counts texts))) as Hp.
  split.
  - apply (Permutation_NoDup (Permutation_sym Hp) Hnd).
  - intros w. transitivity (In w (map fst (word_counts texts))).
    + split; apply Permutation_in; [exact Hp|now apply Permutation_sym].
    + rewrite Hin. cbn. tauto.
Qed.

Lemma word_index_get (texts : list string) (w : string) (v : Z) :
  get w (word_index texts) = Some v <->
  1 <= v /\ nth_error (keys (word_index texts)) (Z.to_nat (v - 1)) = Some w.
Proof.
  rewrite (get_In _ _ _ (proj1 (word_index_keys texts))).
  unfold word_index at 1. rewrite number_from_In.
  unfold word_index. now rewrite number_from_keys.
Qed.

(** The dictionary is one-to-one between its keys and [1 .. len]. *)
Lemma word_index_bijection (texts : list string) :
  let vocab := word_index texts in
  let N := input_dim vocab in
  (forall w i, get w vocab = Some i -> 1 <= i <= N) /\
  (forall w1 w2 i, get w1 vocab = Some i -> get w2 vocab = Some i -> w1 = w2) /\
  (forall i, 1 <= i <= N -> exists w, get w vocab = Some i).
Proof.
  cbv zeta. unfold input_dim. split; [|split].
  - intros w i H. apply word_index_get in H as [H1 H2]. split; [exact H1|].
    assert (Hlt : (Z.to_nat (i - 1) < length (keys (word_index texts)))%nat).
    { apply nth_error_Some. congruence. }
    lia.
  - intros w1 w2 i H1 H2.
    apply word_index_get in H1 as [_ H1]. apply word_index_get in H2 as [_ H2].
    congruence.
  - intros i Hi.
    destruct (nth_error (keys (word_index texts)) (Z.to_nat (i - 1))) as [w|] eqn:E.
    + exists w. apply word_index_get. split; [lia|exact E].
    + apply nth_error_None in E. lia.
Qed.

(** ** Vocabulary *)

(** When every head and tail string is non-empty and holds no space, every
    entity of the triples has exactly one index, the keys of the vocabulary
    are exactly the distinct lowercased entity strings, and the vocabulary
    is a bijection from them onto [1 .. N_entities]. *)
Theorem vocabulary_bijection (families : list triple) :
  all_single_tokens families = true ->
  let vocab := entities_index families in
  let N := input_dim vocab in
  (forall e, In e (head_tail_values families) ->
             exists i, get (lower e) vocab = Some i /\ 1 <= i <= N) /\
  (forall w, In w (keys vocab) <->
             exists e, In e (head_tail_values families) /\ w = lower e) /\
  NoDup (keys vocab) /\
  (forall w1 w2 i, get w1 vocab = Some i -> get w2 vocab = Some i -> w1 = w2) /\
  (forall i, 1 <= i <= N <-> exists w, get w vocab = Some i).
Proof.
  intros Hall. cbv zeta. unfold entities_index.
  set (texts := entities families).
  destruct (word_index_keys texts) as [Hnd Hkeys].
  destruct (word_index_bijection texts) as (Hrange & Hinj & Hsurj). cbv zeta in *.
  unfold all_single_tokens in Hall. rewrite forallb_forall in Hall.
  assert (Hk : forall w, In w (keys (word_index texts)) <->
                         exists e, In e (head_tail_values families) /\ w = lower e).
  { intros w. rewrite Hkeys. unfold texts, entities. split.
    - intros (e & He & Hw). apply (proj1 (np_unique_In _ _)) in He.
      rewrite (single_token_sequence e (Hall e He)) in Hw.
      destruct Hw as [<-|[]]. now exists e.
    - intros (e & He & ->). exists e.
      split; [exact (proj2 (np_unique_In _ _) He)|].
      rewrite (single_token_sequence e (Hall e He)). now left. }
  split; [|split; [exact Hk|split; [exact Hnd|split; [exact Hinj|]]]].
  - intros e He.
    destruct (get (lower e) (word_index texts)) as [i|] eqn:E.
    + exists i. split; [reflexivity|]. exact (Hrange _ _ E).
    + exfalso. apply get_None in E. apply E, Hk. now exists e.
  - intros i. split; [apply Hsurj|]. intros (w & Hw). exact (Hrange _ _ Hw).
Qed.

Lemma vocabulary_bijection_witness :
  let fam := [Triple "Cha" "ni" "art"; Triple "cha" "fa" "Vic"]%string in
  all_single_tokens fam = true /\
  NoDup (keys (entities_index fam)) /\
  exists i, get (lower "Cha") (entities_index fam) = Some i /\
            1 <= i <= input_dim (entities_index fam).
Proof.
  cbv zeta. split; [reflexivity|].
  pose proof (vocabulary_bijection
                [Triple "Cha" "ni" "art"; Triple "cha" "fa" "Vic"]%string
                eq_refl) as H.
  cbv zeta in H. destruct H as (Hget & _ & Hnd & _).
  split; [exact Hnd|]. apply Hget. cbn. now left.
Defined.

(** C6. Every entity string of the triples should have exactly one index,
    the vocabulary being a bijection from the distinct lowercased entity
    strings onto [1 .. N_entities]; the encoder looks the whole lowercased
    cell up.  On the triple [("mona lisa", "painted_by", "leo")] the
    tokenizer cuts the entity at the space: the entity itself has no index,
    the vocabulary has three keys for two entities, and its key ["mona"] is
    not an entity string. *)
Lemma vocabulary_splits_spaced_entity :
  In "mona lisa"%string (head_tail_values spaced) /\
  get (lower "mona lisa") (entities_index spaced) = None /\
  entities_index spaced = [("leo", 1); ("mona", 2); ("lisa", 3)]%string /\
  ~ (exists e, In e (head_tail_values spaced) /\ "mona"%string = lower e).
Proof.
  split; [now left|]. split; [reflexivity|]. split; [reflexivity|].
  intros (e & [<-|[<-|[]]] & H); discriminate H.
Qed.

(** The recorded run: the dictionary printed by the notebook. *)
Example entities_index_recorded :
  word_index (np_unique people) =
  [("alf", 1); ("and", 2); ("ang", 3); ("art", 4); ("cha", 5); ("che", 6);
   ("chr", 7); ("chs", 8); ("col", 9); ("emi", 10); ("fra", 11); ("gin", 12);
   ("jam", 13); ("jen", 14); ("luc", 15); ("maa", 16); ("mar", 17);
   ("mat", 18); ("pen", 19); ("pie", 20); ("rob", 21); ("sop", 22);
   ("tom", 23); ("vic", 24)]%string.
Proof. vm_compute. reflexivity. Qed.





(** The recorded run: 24 rows (the summary's 4800 = 24 * 200 parameters),
    and the index 24 of ["vic"] is not one of them. *)
Example embedding_rows_recorded :
  let vocab := word_index (np_unique people) in
  embedding_shape vocab = (24, 200) /\
  get "vic"%string vocab = Some 24 /\
  valid_row (input_dim vocab) 24 = false /\
  plot_row vocab "vic"%string = Some 23.
Proof. vm_compute. repeat split. Qed.

(** ** One-hot relation columns *)

Lemma dummy_cells_bits (columns : list string) (r : string) :
  length (dummy_cells columns r) = length columns /\
  Forall (fun c => c = 0 \/ c = 1) (dummy_cells columns r).
Proof.
  unfold dummy_cells. split; [apply length_map|].
  apply Forall_forall. intros c Hc. apply in_map_iff in Hc as (k & <- & _).
  destruct (String.eqb r k); auto.
Qed.

Lemma dummy_cells_absent (columns : list string) (r : string) :
  ~ In r columns ->
  ones (dummy_cells columns r) = 0%nat /\ sum_cells (dummy_cells columns r) = 0.
Proof.
  unfold ones, sum_cells, dummy_cells.
  induction columns as [|c cs IH]; cbn; intros H; [now split|].
  destruct (String.eqb_spec r c) as [->|Hne]; [exfalso; apply H; now left|].
  destruct IH as [H1 H2]; [tauto|].
  destruct (Z.eq_dec 0 1) as [E|_]; [discriminate E|]. now rewrite H2.
Qed.

Lemma dummy_cells_present (columns : list string) (r : string) :
  NoDup columns -> In r columns ->
  ones (dummy_cells columns r) = 1%nat /\ sum_cells (dummy_cells columns r) = 1.
Proof.
  unfold ones, sum_cells, dummy_cells.
  induction 1 as [|c cs Hc Hnd IH]; cbn; intros Hin; [contradiction|].
  destruct (String.eqb_spec r c) as [->|Hne].
  - destruct (dummy_cells_absent cs c Hc) as [H1 H2].
    unfold ones, sum_cells, dummy_cells in H1, H2.
    destruct (Z.eq_dec 1 1) as [_|E]; [|contradiction]. now rewrite H1, H2.
  - destruct IH as [H1 H2]; [destruct Hin; congruence|].
    destruct (Z.eq_dec 0 1) as [E|_]; [discriminate E|]. now rewrite H2.
Qed.

Lemma read_csv_values (rows : list triple) : values (read_csv rows) = rows.
Proof.
  unfold values, read_csv. generalize 0%nat.
  induction rows as [|t r IH]; intros s0; cbn; [reflexivity|]. now rewrite IH.
Qed.

Lemma get_dummies_rows (families : frame triple) :
  values (get_dummies families) =
  map (encode_triple (relation_columns families)) (values families).
Proof. unfold values, get_dummies. rewrite !map_map. reflexivity. Qed.

Lemma relation_columns_In (families : frame triple) (c : string) :
  In c (relation_columns families) <->
  is_na c = false /\ exists row, In row (values families) /\ relation row = c.
Proof.
  unfold relation_columns. rewrite np_unique_In, filter_In, in_map_iff.
  rewrite negb_true_iff. split.
  - intros [(row & <- & Hrow) Hna]. split; [exact Hna|]. now exists row.
  - intros [Hna (row & Hrow & <-)]. split; [|exact Hna]. now exists row.
Qed.

Lemma relation_columns_NoDup (families : frame triple) :
  NoDup (relation_columns families).
Proof. apply np_unique_NoDup. Qed.

Lemma encode_triple_encodes (families : frame triple) (t : triple) :
  In t (values families) ->
  encodes_relation (relation_columns families) t
                   (encode_triple (relation_columns families) t).
Proof.
  intros Ht. unfold encodes_relation. cbn [encode_triple ex_head ex_tail ex_relation].
  destruct (dummy_cells_bits (relation_columns families) (relation t)) as [Hlen Hbits].
  split; [reflexivity|]. split; [reflexivity|]. split; [exact Hlen|].
  split; [exact Hbits|].
  destruct (is_na (relation t)) eqn:Hna.
  - apply dummy_cells_absent. intros Hin.
    apply relation_columns_In in Hin as [Hc _]. congruence.
  - apply dummy_cells_present; [apply relation_columns_NoDup|].
    apply relation_columns_In. split; [exact Hna|]. now exists t.
Qed.

Lemma Forall2_map_In {A B : Type} (R : A -> B -> Prop) (f : A -> B)
  (l : list A) :
  (forall a, In a l -> R a (f a)) -> Forall2 R l (map f l).
Proof.
  induction l as [|a l IH]; intros H; cbn [map]; constructor.
  - apply H. now left.
  - apply IH. intros b Hb. apply H. now right.
Qed.

Lemma Forall2_In_r {A B : Type} (R : A -> B -> Prop) (l : list A)
  (l' : list B) (b : B) :
  Forall2 R l l' -> In b l' -> exists a, In a l /\ R a b.
Proof.
  induction 1 as [|x y l l' Hxy _ IH]; [intros []|].
  intros [<-|Hin].
  - exists x. split; [now left|exact Hxy].
  - destruct (IH Hin) as (a & Ha & Hab). exists a. split; [now right|exact Hab].
Qed.

Lemma get_dummies_encodes (families : frame triple) :
  Forall2 (encodes_relation (relation_columns families))
          (values families) (values (get_dummies families)).
Proof.
  rewrite get_dummies_rows. apply Forall2_map_In.
  apply encode_triple_encodes.
Qed.

Lemma oversample_values {A : Type} (gen : generator) (iters st : nat)
  (df : frame A) (x : A) :
  In x (values (fst (oversample gen iters st df))) -> In x (values df).
Proof.
  revert st df. induction iters as [|k IH]; intros st df; [exact (fun H => H)|].
  cbn [oversample].
  pose proof (oversample_step_values gen st df) as Hv.
  destruct (oversample_step gen st df) as [df' st']. cbn [fst] in Hv.
  intros H. apply IH in H. rewrite Hv in H.
  apply in_app_or in H as [H|H]; [exact H|].
  unfold values in *. apply in_map_iff in H as (row & <- & Hrow).
  apply in_map, (sample_rows gen _ st df row Hrow).
Qed.

Lemma split_dataset_rows {A : Type} (gen : generator) (st : nat)
  (df : frame A) (row : nat * A) :
  In row (training_data (split_dataset gen st df)) \/
  In row (validation_data (split_dataset gen st df)) \/
  In row (test_data (split_dataset gen st df)) ->
  In row df.
Proof.
  unfold split_dataset, train_test_split, sample.
  cbn [training_data validation_data test_data].
  intros [H|[H|H]]; repeat apply iloc_In in H; exact H.
Qed.

Lemma augmented_values (gen : generator) (rows : list triple) (e : example) :
  In e (values (fst (augmented gen rows))) ->
  In e (values (get_dummies (read_csv rows))).
Proof. unfold augmented. apply oversample_values. Qed.

Lemma pipeline_rows (gen : generator) (rows : list triple) (row : nat * example) :
  In row (training_data (pipeline gen rows)) \/
  In row (validation_data (pipeline gen rows)) \/
  In row (test_data (pipeline gen rows)) ->
  In row (fst (augmented gen rows)).
Proof. unfold pipeline. apply split_dataset_rows. Qed.

(** C10 (amended). [get_dummies] turns the triples, in order, into as many
    examples, each with one 0/1 cell per relation column; an example whose
    relation cell is not null has exactly one relation column set to 1 and
    its relation columns sum to 1, and an example whose relation cell is
    null (an empty or NA-like field) has every relation column 0.  Every
    example after the oversampling passes and in each of the three parts is
    one of these. *)
Theorem one_hot_relation (gen : generator) (rows : list triple) :
  let columns := relation_columns (read_csv rows) in
  Forall2 (encodes_relation columns)
          rows (values (get_dummies (read_csv rows))) /\
  (forall e,
     In e (values (fst (augmented gen rows))) \/
     In e (values (training_data (pipeline gen rows))) \/
     In e (values (validation_data (pipeline gen rows))) \/
     In e (values (test_data (pipeline gen rows))) ->
     exists t, In t rows /\ encodes_relation columns t e).
Proof.
  cbv zeta.
  assert (H0 : Forall2 (encodes_relation (relation_columns (read_csv rows)))
                 rows (values (get_dummies (read_csv rows)))).
  { pose proof (get_dummies_encodes (read_csv rows)) as H.
    rewrite read_csv_values in H. exact H. }
  split; [exact H0|].
  assert (Hpart : forall part : frame example,
             (forall row, In row part -> In row (fst (augmented gen rows))) ->
             forall e, In e (values part) ->
             In e (values (get_dummies (read_csv rows)))).
  { intros part Hsub e He. apply (augmented_values gen).
    unfold values in *. apply in_map_iff in He as (row & <- & Hrow).
    apply in_map, Hsub, Hrow. }
  intros e He. apply (Forall2_In_r _ _ _ _ H0).
  destruct He as [He|[He|[He|He]]].
  - apply (augmented_values gen), He.
  - apply (Hpart _ (fun row H => pipeline_rows gen rows row (or_introl H)) e He).
  - apply (Hpart _ (fun row H =>
                      pipeline_rows gen rows row (or_intror (or_introl H))) e He).
  - apply (Hpart _ (fun row H =>
                      pipeline_rows gen rows row (or_intror (or_intror H))) e He).
Qed.

(** C10, as stated, fails: the relation field [NA] of the second triple is
    read as the null, the only relation column is [ni], and the second
    example has no 1: its relation columns sum to 0. *)
Lemma null_relation_has_no_column :
  relation_columns (read_csv null_relation) = ["ni"]%string /\
  values (get_dummies (read_csv null_relation)) =
  [{| ex_head := "cha"; ex_tail := "art"; ex_relation := [1] |};
   {| ex_head := "vic"; ex_tail := "col"; ex_relation := [0] |}]%string /\
  ones [0] = 0%nat /\ sum_cells [0] = 0.
Proof. repeat split. Qed.

(** The specification's scenario: relations [r1], [r2] and the triple
    [(a, r1, b)] give the cells [[1; 0]]. *)
Example get_dummies_scenario :
  values (get_dummies (read_csv [Triple "a" "r1" "b"; Triple "b" "r2" "c"]%string)) =
  [{| ex_head := "a"; ex_tail := "b"; ex_relation := [1; 0] |};
   {| ex_head := "b"; ex_tail := "c"; ex_relation := [0; 1] |}]%string.
Proof. reflexivity. Qed.

(** ** Index encoding *)

Lemma sequence_returned {A B : Type} (f : A -> B) (l : list A) :
  sequence (map (fun x => Returned (f x)) l) = Returned (map f l).
Proof.
  induction l as [|x l IH]; [reflexivity|]. cbn. now rewrite IH.
Qed.

Lemma astype_int_null (cells : list pyval) :
  In PyNone cells -> astype_int cells = Raised CastError.
Proof.
  induction cells as [|c cells IH]; [intros []|].
  intros [->|H]; [reflexivity|].
  cbn. destruct c; [reflexivity|]. now rewrite (IH H).
Qed.

(** C4 (amended). A lookup for a string that is absent from the vocabulary
    raises nothing: it returns the null [None], never an integer; what fails
    is the cast of the looked-up column to int, and with a cast error, not
    with [MissingEntity]. *)
Theorem encode_missing_entity (vocab : list (string * Z)) (x : string) :
  ~ In (lower x) (keys vocab) ->
  encode_lookup vocab x = Returned PyNone /\
  forall (df : frame example) (e : example),
    In e (values df) -> ex_head e = x \/ ex_tail e = x ->
    encode_frame vocab df = Raised CastError.
Proof.
  intros Habs. apply get_None in Habs.
  assert (Hx : encode_lookup vocab x = Returned PyNone).
  { unfold encode_lookup. now rewrite Habs. }
  split; [exact Hx|].
  intros df e He Hcell. unfold encode_frame, encode_lookup.
  rewrite (sequence_returned
             (fun x => match get (lower x) vocab with
                       | Some i => PyInt i
                       | None => PyNone
                       end)).
  cbn [bind]. rewrite astype_int_null; [reflexivity|].
  apply in_map_iff. exists x. rewrite Habs. split; [reflexivity|].
  apply in_flat_map. exists e. split; [exact He|].
  cbn. destruct Hcell as [<-|<-]; auto.
Qed.

Lemma encode_missing_entity_witness :
  ~ In (lower "zed") (keys small_vocab) /\
  encode_lookup small_vocab "zed" = Returned PyNone /\
  encode_frame small_vocab stray_frame = Raised CastError.
Proof.
  assert (Habs : ~ In (lower "zed") (keys small_vocab)).
  { intros [H|[H|[]]]; discriminate H. }
  split; [exact Habs|].
  destruct (encode_missing_entity small_vocab "zed" Habs) as [H1 H2].
  split; [exact H1|].
  apply (H2 stray_frame {| ex_head := "alf"; ex_tail := "zed"; ex_relation := [1] |}).
  - now left.
  - now right.
Defined.

(** C4, as stated, fails: for the absent string ["zed"] the lookup returns
    [None] instead of raising [MissingEntity], and the only error of the
    encoder is the later cast error. *)
Lemma encode_lookup_returns_null :
  get "zed"%string small_vocab = None /\
  encode_lookup small_vocab "zed" = Returned PyNone /\
  encode_lookup small_vocab "zed" <> Raised MissingEntity /\
  encode_frame small_vocab stray_frame <> Raised MissingEntity.
Proof.
  split; [reflexivity|]. split; [reflexivity|]. split; discriminate.
Qed.

(** A present string is encoded by its index, and a frame whose cells are
    all present is encoded without error. *)
Example encode_frame_scenario :
  encode_frame [("a", 1); ("b", 2); ("c", 3)]%string
    (get_dummies (read_csv [Triple "A" "r1" "b"; Triple "b" "r2" "c"]%string)) =
  Returned [[1; 2]; [2; 3]].
Proof. reflexivity. Qed.

(** ** The forward pass *)

Section ForwardProperties.

Variable F : Type.
Variable Fzero : F.
Variable Fadd Fmul : F -> F -> F.
Variable Fdiv_count : F -> nat -> F.
Variable sigmoid : F -> F.
Variable out_of_range : outcome (list F).

(** Addition of the scalars commutes (as IEEE-754 addition does, and exact
    addition). *)
Hypothesis Fadd_comm : forall a b, Fadd a b = Fadd b a.

Lemma vadd_comm (u v : list F) : vadd F Fadd u v = vadd F Fadd v u.
Proof.
  revert v. induction u as [|a u IH]; intros [|b v]; cbn; try reflexivity.
  now rewrite Fadd_comm, IH.
Qed.

Lemma Embedding_raised (E : list (list F)) (i : Z) (e : error) :
  Embedding F out_of_range E i = Raised e -> out_of_range = Raised e.
Proof.
  unfold Embedding. destruct (valid_row _ i); [|exact (fun H => H)].
  destruct (nth_error E (Z.to_nat i)); [discriminate|exact (fun H => H)].
Qed.

Lemma pooling_pair (a b : list F) :
  GlobalAveragePooling1D F Fadd Fdiv_count [a; b] =
  GlobalAveragePooling1D F Fadd Fdiv_count [b; a].
Proof.
  unfold GlobalAveragePooling1D. cbn [fold_left length].
  now rewrite vadd_comm.
Qed.

(** C2. For every pair of indices and every embedding matrix, kernel and
    bias, swapping head and tail leaves the outcome of the forward pass
    unchanged: the same score vector, component by component. *)
Theorem score_symmetric (E kernel : list (list F)) (bias : list F) (h t : Z) :
  score F Fzero Fadd Fmul Fdiv_count sigmoid out_of_range E kernel bias h t =
  score F Fzero Fadd Fmul Fdiv_count sigmoid out_of_range E kernel bias t h.
Proof.
  unfold score, forward. cbn [map sequence].
  destruct (Embedding F out_of_range E h) as [a|e1] eqn:Eh;
    destruct (Embedding F out_of_range E t) as [b|e2] eqn:Et; cbn [bind].
  - now rewrite pooling_pair.
  - reflexivity.
  - reflexivity.
  - apply Embedding_raised in Eh, Et. congruence.
Qed.

End ForwardProperties.

Lemma score_symmetric_witness :
  (forall a b : R, Rplus a b = Rplus b a) /\
  score_real (Raised OutOfRange) E3 K3 b3 0 2 =
  score_real (Raised OutOfRange) E3 K3 b3 2 0 /\
  score_real (Raised OutOfRange) E3 K3 b3 1 3 =
  score_real (Raised OutOfRange) E3 K3 b3 3 1.
Proof.
  split; [exact Rplus_comm|].
  split; unfold score_real; apply score_symmetric; exact Rplus_comm.
Defined.

(** In exact real arithmetic the logistic function stays strictly between 0
    and 1.  This is a fact about the real function only; the run computes
    it in float32. *)
Lemma sigmoid_real_bounds (x : R) : (0 < sigmoid_real x < 1)%R.
Proof.
  unfold sigmoid_real. pose proof (exp_pos (- x)) as He.
  assert (Hpos : (0 < 1 + exp (- x))%R) by lra.
  pose proof (Rinv_0_lt_compat _ Hpos) as Hinv.
  pose proof (Rinv_r (1 + exp (- x)) ltac:(lra)) as Hr.
  split; [exact Hinv|]. nra.
Qed.

(** In exact real arithmetic every component of the forward pass is
    strictly between 0 and 1. *)
Lemma score_real_open_interval (out_of_range : outcome (list R))
  (E kernel : list (list R)) (bias : list R) (h t : Z) (v : list R) :
  score_real out_of_range E kernel bias h t = Returned v ->
  Forall (fun c => (0 < c < 1)%R) v.
Proof.
  unfold score_real, score, forward.
  destruct (sequence _) as [x|e]; cbn [bind]; [|discriminate].
  intros H. injection H as <-. unfold Activation_sigmoid.
  apply Forall_forall. intros c Hc. apply in_map_iff in Hc as (z & <- & _).
  apply sigmoid_real_bounds.
Qed.

(** ** The float32 grid *)

Lemma round24_nonneg (num den : Z) :
  0 <= num -> 0 < den -> 0 <= round24 num den.
Proof.
  intros Hn Hd. unfold round24.
  destruct (Z.leb_spec (Z.log2 (num / den) - 23) 0) as [_|Hs].
  - pose proof (round_half_even_floor num den) as [H _].
    pose proof (Z.div_pos num den Hn Hd). lia.
  - set (s := Z.log2 (num / den) - 23) in *.
    assert (Hp : 0 < 2 ^ s) by (apply Z.pow_pos_nonneg; lia).
    pose proof (round_half_even_floor num (den * 2 ^ s)) as [H _].
    pose proof (Z.div_pos num (den * 2 ^ s) Hn ltac:(nia)). nia.
Qed.

(** Rounding does not cross 1.0: a quotient of at least 1 is rounded to at
    least 1. *)
Lemma round24_lower (num den : Z) :
  0 < den -> 2 ^ 149 * den <= num -> 2 ^ 149 <= round24 num den.
Proof.
  intros Hd H. unfold round24. set (q := num / den).
  assert (Hq : 2 ^ 149 <= q) by (apply Z.div_le_lower_bound; lia).
  assert (Hq0 : 0 < q) by (pose proof (Z.pow_pos_nonneg 2 149); lia).
  assert (HL : 149 <= Z.log2 q) by (apply Z.log2_le_pow2; lia).
  destruct (Z.leb_spec (Z.log2 q - 23) 0) as [Hs|Hs]; [lia|].
  set (s := Z.log2 q - 23) in *.
  assert (Hp : 0 < 2 ^ s) by (apply Z.pow_pos_nonneg; lia).
  pose proof (round_half_even_floor num (den * 2 ^ s)) as [Hfl _].
  assert (Hdd : num / (den * 2 ^ s) = q / 2 ^ s).
  { unfold q. rewrite Z.div_div by lia. reflexivity. }
  rewrite Hdd in Hfl.
  destruct (Z.log2_spec q Hq0) as [Hlo _].
  assert (Hsplit : 2 ^ Z.log2 q = 2 ^ s * 2 ^ 23).
  { rewrite <- Z.pow_add_r by lia. f_equal. unfold s. lia. }
  assert (Hm : 2 ^ 23 <= q / 2 ^ s) by (apply Z.div_le_lower_bound; lia).
  assert (Hmono : 2 ^ 149 <= 2 ^ Z.log2 q) by (apply Z.pow_le_mono_r; lia).
  nia.
Qed.

(** ... and a quotient of at most 1 is rounded to at most 1. *)
Lemma round24_upper (num den : Z) :
  0 < den -> 0 <= num <= 2 ^ 149 * den -> round24 num den <= 2 ^ 149.
Proof.
  intros Hd [H0 H]. unfold round24. set (q := num / den).
  assert (Hq : q <= 2 ^ 149) by (apply Z.div_le_upper_bound; lia).
  assert (Hq0 : 0 <= q) by (apply Z.div_pos; lia).
  destruct (Z.leb_spec (Z.log2 q - 23) 0) as [Hs|Hs].
  - pose proof (round_half_even_floor num den) as [_ Hce]. fold q in Hce.
    assert (Hlt : q < 2 ^ 24).
    { destruct (Z.eq_dec q 0) as [->|Hne]; [reflexivity|].
      apply Z.log2_lt_pow2; lia. }
    assert (2 ^ 24 <= 2 ^ 149) by (apply Z.pow_le_mono_r; lia). lia.
  - set (s := Z.log2 q - 23) in *.
    assert (Hqp : 0 < q).
    { destruct (Z.eq_dec q 0) as [E|Hne]; [|lia].
      unfold s in Hs. rewrite E in Hs. cbn in Hs. lia. }
    assert (Hp : 0 < 2 ^ s) by (apply Z.pow_pos_nonneg; lia).
    assert (Hdd : num / (den * 2 ^ s) = q / 2 ^ s).
    { unfold q. rewrite Z.div_div by lia. reflexivity. }
    destruct (Z.log2_spec q Hqp) as [Hlo Hhi].
    destruct (Z.eq_dec q (2 ^ 149)) as [E|Hne].
    + assert (Hnum : num = 2 ^ 149 * den).
      { pose proof (Z.mul_div_le num den Hd). fold q in H1. nia. }
      assert (HL : Z.log2 q = 149) by (rewrite E; apply Z.log2_pow2; lia).
      assert (Hs' : s = 126) by (unfold s; lia).
      rewrite Hs', Hnum.
      replace (2 ^ 149 * den) with (2 ^ 23 * (den * 2 ^ 126))
        by (change (2 ^ 149) with (2 ^ 23 * 2 ^ 126); ring).
      rewrite round_half_even_exact.
      * rewrite Z.div_mul by nia. change (2 ^ 149) with (2 ^ 126 * 2 ^ 23). lia.
      * nia.
      * apply Z.mod_mul. nia.
    + assert (HL : Z.log2 q < 149) by (apply Z.log2_lt_pow2; lia).
      pose proof (round_half_even_floor num (den * 2 ^ s)) as [_ Hce].
      rewrite Hdd in Hce.
      assert (Hsplit : 2 ^ Z.succ (Z.log2 q) = 2 ^ s * 2 ^ 24).
      { rewrite <- Z.pow_add_r by lia. f_equal. unfold s. lia. }
      assert (Hm : q / 2 ^ s < 2 ^ 24) by (apply Z.div_lt_upper_bound; lia).
      assert (Hmono : 2 ^ Z.succ (Z.log2 q) <= 2 ^ 149)
        by (apply Z.pow_le_mono_r; lia).
      nia.
Qed.

(** What is added to 1.0 below a quarter of its last place is lost. *)
Lemma round24_absorbs (k : Z) :
  0 <= k <= 2 ^ 124 -> round24 (2 ^ 149 + k) 1 = 2 ^ 149.
Proof.
  intros Hk. unfold round24. rewrite Z.div_1_r.
  assert (HL : Z.log2 (2 ^ 149 + k) = 149).
  { apply Z.log2_unique; [lia|].
    change (2 ^ (149 + 1)) with (2 ^ 149 + 2 ^ 149).
    assert (2 ^ 124 < 2 ^ 149) by reflexivity. lia. }
  rewrite HL. change (149 - 23 <=? 0) with false. cbv iota.
  change (149 - 23) with 126. rewrite Z.mul_1_l.
  unfold round_half_even.
  assert (Hdiv : (2 ^ 149 + k) / 2 ^ 126 = 2 ^ 23).
  { symmetry. apply (Z.div_unique _ _ _ k).
    - left. assert (2 ^ 124 < 2 ^ 126) by reflexivity. lia.
    - change (2 ^ 149) with (2 ^ 126 * 2 ^ 23). lia. }
  assert (Hmod : (2 ^ 149 + k) mod 2 ^ 126 = k).
  { symmetry. apply (Z.mod_unique _ _ (2 ^ 23)).
    - left. assert (2 ^ 124 < 2 ^ 126) by reflexivity. lia.
    - change (2 ^ 149) with (2 ^ 126 * 2 ^ 23). lia. }
  rewrite Hdiv, Hmod.
  destruct (Z.ltb_spec (2 * k) (2 ^ 126)) as [_|Hge].
  - reflexivity.
  - assert (2 * 2 ^ 124 < 2 ^ 126) by reflexivity. lia.
Qed.

(** ** The logistic function in float32 *)

Lemma exp_fixed_nonneg (u : Z) : 0 <= exp_fixed u.
Proof.
  unfold exp_fixed. cbv zeta. rewrite Nat.iter_succ.
  apply Z.div_pos; [apply Z.square_nonneg|reflexivity].
Qed.

Lemma exp32_nearest_nonneg (x : float32) :
  x <> NaN32 -> nonneg32 (exp32_nearest x).
Proof.
  intros Hx. destruct x as [a k|[|]|]; [| | |contradiction].
  - unfold exp32_nearest. cbv zeta.
    destruct (signed a k <=? - (104 * 2 ^ 149));
      [right; exists 0; split; [reflexivity|lia]|].
    destruct (89 * 2 ^ 149 <=? signed a k); [now left|].
    unfold make32. cbv zeta.
    pose proof (round24_nonneg (exp_fixed (signed a k)) (2 ^ 51)
                  (exp_fixed_nonneg _) eq_refl) as Hr.
    destruct (round24 _ _ <? overflow32); [|now left].
    right. eexists. split; [reflexivity|exact Hr].
  - right. exists 0. split; [reflexivity|lia].
  - now left.
Qed.

(** With an exponential that is never negative, the logistic function of a
    number lies in the closed interval from 0.0 to 1.0. *)
Lemma sigmoid32_range (exp32 : float32 -> float32) (x : float32) :
  (forall y, y <> NaN32 -> nonneg32 (exp32 y)) ->
  x <> NaN32 -> in_unit_interval (sigmoid32 exp32 x).
Proof.
  intros Hexp Hx. unfold sigmoid32.
  assert (Hn : neg32 x <> NaN32) by (destruct x; [discriminate| discriminate|contradiction]).
  assert (Hzero : in_unit_interval (Finite32 false 0)).
  { exists 0. split; [reflexivity|]. assert (0 < 2 ^ 149) by reflexivity. lia. }
  destruct (Hexp _ Hn) as [->|(k & -> & Hk)]; [exact Hzero|].
  unfold one32. cbn [add32 signed].
  assert (Hpos : 0 < 2 ^ 149) by reflexivity.
  destruct (Z.eqb_spec (2 ^ 149 + k) 0) as [E|_]; [lia|].
  destruct (Z.ltb_spec (2 ^ 149 + k) 0) as [E|_]; [lia|].
  rewrite Z.abs_eq by lia. unfold make32 at 1. cbv zeta.
  pose proof (round24_lower (2 ^ 149 + k) 1 eq_refl ltac:(lia)) as Hm.
  set (m := round24 (2 ^ 149 + k) 1) in *.
  destruct (m <? overflow32); [|exact Hzero].
  cbn [div32 xorb]. destruct (Z.eqb_spec m 0) as [E|_]; [lia|].
  unfold make32. cbv zeta.
  assert (Hm0 : 0 < m) by lia.
  pose proof (round24_upper (2 ^ 149 * 2 ^ 149) m Hm0 ltac:(nia)) as Hu.
  pose proof (round24_nonneg (2 ^ 149 * 2 ^ 149) m ltac:(nia) Hm0) as Hl.
  set (r := round24 (2 ^ 149 * 2 ^ 149) m) in *.
  destruct (Z.ltb_spec r overflow32) as [_|Hov].
  - exists r. split; [reflexivity|lia].
  - assert (2 ^ 149 < overflow32) by reflexivity. lia.
Qed.

(** Whatever the last bits of the exponential: once [exp (- x)] is at most
    [2^-25] (as it is from [x = 18] on), the logistic function of [x] is
    exactly 1.0. *)
Lemma sigmoid32_saturates (exp32 : float32 -> float32) (x : float32) (k : Z) :
  exp32 (neg32 x) = Finite32 false k -> 0 <= k <= 2 ^ 124 ->
  sigmoid32 exp32 x = one32.
Proof.
  intros He Hk. unfold sigmoid32. rewrite He. unfold one32. cbn [add32 signed].
  assert (Hpos : 0 < 2 ^ 149) by reflexivity.
  destruct (Z.eqb_spec (2 ^ 149 + k) 0) as [E|_]; [lia|].
  destruct (Z.ltb_spec (2 ^ 149 + k) 0) as [E|_]; [lia|].
  rewrite Z.abs_eq by lia. unfold make32. cbv zeta.
  rewrite (round24_absorbs k Hk). reflexivity.
Qed.

Lemma score32_components (exp32 : float32 -> float32)
  (out_of_range : outcome (list float32))
  (E kernel : list (list float32)) (bias : list float32) (h t : Z)
  (v : list float32) :
  score32 exp32 out_of_range E kernel bias h t = Returned v ->
  exists rh rt,
    Embedding float32 out_of_range E h = Returned rh /\
    Embedding float32 out_of_range E t = Returned rt /\
    v = map (sigmoid32 exp32)
            (Dense float32 zero32 add32 mul32 kernel bias
               (GlobalAveragePooling1D float32 add32 mean32 [rh; rt])).
Proof.
  unfold score32, score, forward. cbn [map sequence].
  destruct (Embedding float32 out_of_range E h) as [rh|e1]; cbn [bind];
    [|discriminate].
  destruct (Embedding float32 out_of_range E t) as [rt|e2]; cbn [bind];
    [|discriminate].
  intros H. injection H as <-. exists rh, rt.
  split; [reflexivity|]. split; reflexivity.
Qed.

(** C9 (amended).  In the float32 arithmetic of the run, for every pair of
    indices and every embedding matrix, kernel and bias, each component of
    the output is the logistic function of its pre-activation (the Dense
    output on the mean of the two embedding rows), and whenever that
    pre-activation is a number (not NaN) the component lies in the closed
    interval from 0.0 to 1.0; this holds for every exponential that is
    never negative. *)
Theorem sigmoid_output_range (exp32 : float32 -> float32)
  (out_of_range : outcome (list float32))
  (E kernel : list (list float32)) (bias : list float32) (h t : Z)
  (v : list float32) :
  (forall y, y <> NaN32 -> nonneg32 (exp32 y)) ->
  score32 exp32 out_of_range E kernel bias h t = Returned v ->
  exists rh rt logits,
    Embedding float32 out_of_range E h = Returned rh /\
    Embedding float32 out_of_range E t = Returned rt /\
    logits = Dense float32 zero32 add32 mul32 kernel bias
               (GlobalAveragePooling1D float32 add32 mean32 [rh; rt]) /\
    Forall2 (fun z c => c = sigmoid32 exp32 z /\
                        (z <> NaN32 -> in_unit_interval c))
            logits v.
Proof.
  intros Hexp Hv.
  destruct (score32_components _ _ _ _ _ _ _ _ Hv) as (rh & rt & Hh & Ht & ->).
  exists rh, rt. eexists. split; [exact Hh|]. split; [exact Ht|].
  split; [reflexivity|].
  apply Forall2_map_In. intros z _. split; [reflexivity|].
  intros Hz. now apply sigmoid32_range.
Qed.

Lemma sigmoid_output_range_witness :
  (forall y, y <> NaN32 -> nonneg32 (exp32_nearest y)) /\
  score32 exp32_nearest (Raised OutOfRange) E_pair [[int32 1]] [int32 (-2)] 0 1
  = Returned [Finite32 false (2 ^ 148)] /\
  exists rh rt logits,
    Embedding float32 (Raised OutOfRange) E_pair 0 = Returned rh /\
    Embedding float32 (Raised OutOfRange) E_pair 1 = Returned rt /\
    logits = Dense float32 zero32 add32 mul32 [[int32 1]] [int32 (-2)]
               (GlobalAveragePooling1D float32 add32 mean32 [rh; rt]) /\
    Forall2 (fun z c => c = sigmoid32 exp32_nearest z /\
                        (z <> NaN32 -> in_unit_interval c))
            logits [Finite32 false (2 ^ 148)].
Proof.
  assert (Hv : score32 exp32_nearest (Raised OutOfRange) E_pair
                 [[int32 1]] [int32 (-2)] 0 1
               = Returned [Finite32 false (2 ^ 148)])
    by (vm_compute; reflexivity).
  split; [exact exp32_nearest_nonneg|]. split; [exact Hv|].
  exact (sigmoid_output_range exp32_nearest (Raised OutOfRange) E_pair
           [[int32 1]] [int32 (-2)] 0 1 _ exp32_nearest_nonneg Hv).
Defined.

(** C9, as stated, fails in float32: with the finite embedding rows [1.0]
    and [3.0] (mean 2.0), the kernel [10.0] and the bias [0.0] the
    pre-activation is 20.0 and the output is exactly 1.0, not below it:
    [exp (-20)] is lost when it is added to 1.0, and this is so for every
    exponential whose value at -20 is at most [2^-25] ([exp (-20)] is about
    [2^-29]).  With the kernel [-60.0] the pre-activation is -120.0,
    [exp 120] overflows and the output is exactly 0.0. *)
Lemma sigmoid_reaches_one_and_zero :
  score32 exp32_nearest (Raised OutOfRange) E_pair [[int32 10]] [int32 0] 0 1
  = Returned [one32] /\
  score32 exp32_nearest (Raised OutOfRange) E_pair [[int32 (-60)]] [int32 0] 0 1
  = Returned [zero32] /\
  (forall (exp32 : float32 -> float32) (k : Z),
     exp32 (int32 (-20)) = Finite32 false k -> 0 <= k <= 2 ^ 124 ->
     score32 exp32 (Raised OutOfRange) E_pair [[int32 10]] [int32 0] 0 1
     = Returned [one32]).
Proof.
  split; [vm_compute; reflexivity|]. split; [vm_compute; reflexivity|].
  intros exp32 k He Hk.
  assert (Hl : Dense float32 zero32 add32 mul32 [[int32 10]] [int32 0]
                 (GlobalAveragePooling1D float32 add32 mean32
                    [[int32 1]; [int32 3]]) = [int32 20])
    by (vm_compute; reflexivity).
  unfold score32, score, forward.
  change (sequence (map (Embedding float32 (Raised OutOfRange) E_pair) [0; 1]))
    with (Returned [[int32 1]; [int32 3]]).
  cbn [bind]. rewrite Hl. unfold Activation_sigmoid. cbn [map].
  rewrite (sigmoid32_saturates exp32 (int32 20) k He Hk). reflexivity.
Qed.

(** Finite weights can also overflow on the way: with the rows
    [[2^100; 2^100]] and the kernel rows [2^100] and [-2^100] the two
    products are plus and minus infinity, their sum is NaN, and so is the
    output. *)
Example score32_overflow_nan :
  let big := Finite32 false (2 ^ 249) in
  score32 exp32_nearest (Raised OutOfRange)
          [[big; big]; [big; big]] [[big]; [neg32 big]] [int32 0] 0 1
  = Returned [NaN32].
Proof. vm_compute. reflexivity. Qed.

(** * Further properties *)

(** ** [np.unique] *)

Lemma drop_repeats_sorted (l : list string) :
  StronglySorted (fun x y => StringOrder.leb x y = true) l ->
  StronglySorted String_as_OT.lt (drop_repeats l).
Proof.
  induction 1 as [|a l Hs IH Hall]; [constructor|].
  cbn [drop_repeats]. destruct l as [|b l]; [repeat constructor|].
  destruct (String.eqb_spec a b) as [->|Hne]; [exact IH|].
  constructor; [exact IH|].
  apply Forall_forall. intros z Hz. apply (proj1 (drop_repeats_In _ _)) in Hz.
  inversion Hall as [|? ? Hab Hal]; subst.
  inversion Hs as [|? ? _ Hbl]; subst.
  rewrite Forall_forall in Hal, Hbl.
  assert (Haz : StringOrder.leb a z = true).
  { destruct Hz as [<-|Hz]; [exact Hab|now apply Hal]. }
  apply leb_cases in Haz as [->|Hlt]; [|exact Hlt].
  exfalso. apply Hne, leb_antisym; [exact Hab|].
  destruct Hz as [E|Hz]; [now subst|now apply Hbl].
Qed.

(** [np.unique] returns the distinct values in strictly increasing order:
    the same members as its argument, each once, sorted. *)
Theorem np_unique_sorted (l : list string) :
  StronglySorted String_as_OT.lt (np_unique l) /\
  NoDup (np_unique l) /\
  forall x, In x (np_unique l) <-> In x l.
Proof.
  split; [apply drop_repeats_sorted, sort_strongly_sorted|].
  split; [apply np_unique_NoDup|apply np_unique_In].
Qed.

(** ** Words of the vocabulary *)

Lemma lower_char_idempotent (c : ascii) :
  lower_char (lower_char c) = lower_char c.
Proof. destruct c as [[] [] [] [] [] [] [] []]; vm_compute; reflexivity. Qed.

Lemma lower_idempotent (s : string) : lower (lower s) = lower s.
Proof.
  induction s as [|c s IH]; [reflexivity|]. cbn.
  now rewrite lower_char_idempotent, IH.
Qed.

Lemma split_pieces (s : string) (p : string) :
  In p (split space s) -> has_space p = false /\ (lower s = s -> lower p = p).
Proof.
  revert p. induction s as [|c s IH]; intros p; cbn [split].
  - intros [<-|[]]. now split.
  - destruct (Ascii.eqb c space) eqn:Ec.
    + intros [<-|Hp]; [now split|].
      destruct (IH p Hp) as [H1 H2]. split; [exact H1|].
      cbn [lower]. intros E. injection E as E1 E2. now apply H2.
    + destruct (split space s) as [|w ws] eqn:Es.
      * intros [<-|[]]. cbn [has_space lower]. rewrite Ec. split; [reflexivity|].
        intros E. injection E as E1 E2. now rewrite E1.
      * intros [<-|Hp].
        -- destruct (IH w (or_introl eq_refl)) as [H1 H2].
           cbn [has_space lower]. rewrite Ec, H1. split; [reflexivity|].
           intros E. injection E as E1 E2. now rewrite E1, (H2 E2).
        -- destruct (IH p (or_intror Hp)) as [H1 H2]. split; [exact H1|].
           cbn [lower]. intros E. injection E as E1 E2. now apply H2.
Qed.

Lemma word_sequence_words (text w : string) :
  In w (text_to_word_sequence text) ->
  nonempty w = true /\ has_space w = false /\ lower w = w.
Proof.
  unfold text_to_word_sequence. intros H. apply filter_In in H as [Hin Hne].
  destruct (split_pieces _ _ Hin) as [H1 H2].
  split; [exact Hne|]. split; [exact H1|]. apply H2, lower_idempotent.
Qed.

(** Every key of the vocabulary is a word: not empty, without a space, and
    already in lower case; a lookup with any other string finds nothing. *)
Theorem vocabulary_keys_are_words (families : list triple) (w : string) :
  (In w (keys (entities_index families)) ->
   nonempty w = true /\ has_space w = false /\ lower w = w) /\
  (single_token w = false -> get w (entities_index families) = None).
Proof.
  assert (H : In w (keys (entities_index families)) ->
              nonempty w = true /\ has_space w = false /\ lower w = w).
  { unfold entities_index. intros Hin.
    apply (proj2 (word_index_keys _)) in Hin as (text & _ & Hw).
    exact (word_sequence_words _ _ Hw). }
  split; [exact H|].
  intros Hs. apply get_None. intros Hin. destruct (H Hin) as (H1 & H2 & _).
  unfold single_token in Hs. now rewrite H1, H2 in Hs.
Qed.

(** ** Numbering *)






(** ** Word counts *)

Lemma count_of_count_word (w w' : string) (wc : list (string * nat)) :
  count_of w (count_word w' wc) =
  (count_of w wc + if String.eqb w' w then 1 else 0)%nat.
Proof.
  induction wc as [|[k c] r IH]; cbn [count_word count_of].
  - destruct (String.eqb w' w); reflexivity.
  - destruct (String.eqb_spec k w') as [->|Hne]; cbn [count_of].
    + destruct (String.eqb w' w); lia.
    + destruct (String.eqb_spec k w) as [->|Hkw].
      * destruct (String.eqb_spec w' w) as [->|_]; [contradiction|lia].
      * exact IH.
Qed.

Lemma count_of_words (w : string) (ws : list string) (wc : list (string * nat)) :
  count_of w (fold_left (fun wc w => count_word w wc) ws wc) =
  (count_of w wc + count_occ string_dec ws w)%nat.
Proof.
  revert wc. induction ws as [|x ws IH]; intros wc; cbn [fold_left count_occ]; [lia|].
  rewrite IH, count_of_count_word.
  destruct (String.eqb_spec x w) as [->|Hne];
    destruct (string_dec _ w) as [E|E]; try contradiction; lia.
Qed.

Lemma count_of_texts (w : string) (texts : list string) (wc : list (string * nat)) :
  count_of w (fold_left count_text texts wc) =
  (count_of w wc + count_occ string_dec (all_words texts) w)%nat.
Proof.
  revert wc. induction texts as [|t texts IH]; intros wc; cbn [fold_left]; [cbn; lia|].
  rewrite IH. unfold count_text. rewrite count_of_words.
  unfold all_words. cbn [flat_map]. rewrite count_occ_app. lia.
Qed.

Lemma count_of_In (w : string) (c : nat) (wc : list (string * nat)) :
  NoDup (map fst wc) -> In (w, c) wc -> count_of w wc = c.
Proof.
  induction wc as [|[k c'] r IH]; cbn; intros Hnd; [intros []|].
  inversion Hnd as [|? ? Hk Hr]; subst.
  destruct (String.eqb_spec k w) as [->|Hne].
  - intros [E|Hin]; [congruence|].
    exfalso. apply Hk. change w with (fst (w, c)). now apply in_map.
  - intros [E|Hin]; [congruence|]. now apply IH.
Qed.

Lemma insert_by_count_sorted (x : string * nat) (l : list (string * nat)) :
  StronglySorted (fun a b => (snd b <= snd a)%nat) l ->
  StronglySorted (fun a b => (snd b <= snd a)%nat) (insert_by_count x l).
Proof.
  induction 1 as [|y r Hs IH Hall]; cbn [insert_by_count].
  - repeat constructor.
  - destruct (Nat.ltb_spec (snd x) (snd y)) as [Hlt|Hge].
    + constructor; [exact IH|].
      apply Forall_forall. intros z Hz.
      apply (Permutation_in _ (insert_by_count_Permutation x r)) in Hz.
      destruct Hz as [<-|Hz]; [lia|].
      rewrite Forall_forall in Hall. now apply Hall.
    + constructor; [now constructor|].
      constructor; [exact Hge|].
      apply Forall_forall. intros z Hz.
      rewrite Forall_forall in Hall. specialize (Hall z Hz). lia.
Qed.

Lemma sort_by_count_sorted (l : list (string * nat)) :
  StronglySorted (fun a b => (snd b <= snd a)%nat) (sort_by_count l).
Proof.
  induction l as [|x l IH]; [constructor|].
  cbn [sort_by_count fold_right]. now apply insert_by_count_sorted.
Qed.

Lemma sorted_positions {A : Type} (R : A -> A -> Prop) (l : list A)
  (p q : nat) (a b : A) :
  StronglySorted R l -> (p < q)%nat ->
  nth_error l p = Some a -> nth_error l q = Some b -> R a b.
Proof.
  intros Hs. revert p q. induction Hs as [|x l Hs IH Hall]; intros p q Hpq Hp Hq.
  - now destruct p.
  - destruct q as [|q]; [lia|]. cbn in Hq. destruct p as [|p].
    + cbn in Hp. injection Hp as <-.
      rewrite Forall_forall in Hall. apply Hall. eapply nth_error_In; eassumption.
    + cbn in Hp. apply (IH p q); [lia|assumption|assumption].
Qed.

(** The tokenizer counts every occurrence of a word in the texts, and it
    numbers the words by decreasing count: a word with a smaller index
    occurs at least as often as one with a larger index. *)
Theorem word_index_by_frequency (texts : list string) :
  (forall w, count_of w (word_counts texts) =
             count_occ string_dec (all_words texts) w) /\
  forall w1 w2 i1 i2,
    get w1 (word_index texts) = Some i1 ->
    get w2 (word_index texts) = Some i2 ->
    i1 < i2 ->
    (count_occ string_dec (all_words texts) w2 <=
     count_occ string_dec (all_words texts) w1)%nat.
Proof.
  assert (Hc : forall w, count_of w (word_counts texts) =
                         count_occ string_dec (all_words texts) w).
  { intros w. unfold word_counts. now rewrite count_of_texts. }
  split; [exact Hc|].
  intros w1 w2 i1 i2 H1 H2 Hlt.
  apply word_index_get in H1 as [Hi1 H1]. apply word_index_get in H2 as [Hi2 H2].
  unfold word_index in H1, H2. rewrite number_from_keys in H1, H2.
  set (sorted := sort_by_count (word_counts texts)) in *.
  rewrite nth_error_map in H1, H2.
  destruct (nth_error sorted (Z.to_nat (i1 - 1))) as [[k1 c1]|] eqn:E1; [|discriminate].
  destruct (nth_error sorted (Z.to_nat (i2 - 1))) as [[k2 c2]|] eqn:E2; [|discriminate].
  cbn in H1, H2. injection H1 as ->. injection H2 as ->.
  assert (Hpq : (Z.to_nat (i1 - 1) < Z.to_nat (i2 - 1))%nat) by lia.
  pose proof (sorted_positions _ _ _ _ _ _
                (sort_by_count_sorted (word_counts texts)) Hpq E1 E2) as Hle.
  cbn in Hle.
  destruct (count_texts_keys texts [] (NoDup_nil _)) as [Hnd _].
  fold (word_counts texts) in Hnd.
  assert (Hin : forall w c, In (w, c) sorted -> count_of w (word_counts texts) = c).
  { intros w c Hw. apply count_of_In; [exact Hnd|].
    exact (Permutation_in _ (sort_by_count_Permutation _) Hw). }
  rewrite <- !Hc.
  rewrite (Hin w1 c1) by (eapply nth_error_In; eassumption).
  rewrite (Hin w2 c2) by (eapply nth_error_In; eassumption).
  exact Hle.
Qed.

(** ** One-hot columns *)




(** ** Sampling *)

Lemma iloc_map {A B : Type} (f : A -> B) (l : list A) (locs : list nat) :
  map f (iloc l locs) = iloc (map f l) locs.
Proof.
  unfold iloc. induction locs as [|i locs IH]; [reflexivity|].
  cbn [flat_map]. rewrite map_app, IH, nth_error_map.
  destruct (nth_error l i); reflexivity.
Qed.

Lemma iloc_NoDup {A : Type} (l : list A) (locs : list nat) :
  NoDup l -> NoDup locs -> NoDup (iloc l locs).
Proof.
  intros Hl. unfold iloc. induction 1 as [|i locs Hi Hlocs IH]; [constructor|].
  cbn [flat_map]. destruct (nth_error l i) as [x|] eqn:Ex; [|exact IH].
  cbn [app]. constructor; [|exact IH].
  intros Hin. apply in_flat_map in Hin as (j & Hj & Hx).
  destruct (nth_error l j) as [y|] eqn:Ey; [|contradiction].
  destruct Hx as [->|[]].
  assert (i = j); [|now subst].
  apply (proj1 (NoDup_nth_error l) Hl).
  - apply nth_error_Some. congruence.
  - congruence.
Qed.

Lemma NoDup_firstn {A : Type} (k : nat) (l : list A) :
  NoDup l -> NoDup (firstn k l).
Proof.
  intros H. rewrite <- (firstn_skipn k l) in H.
  now apply NoDup_app_remove_r in H.
Qed.

Lemma rng_ok_NoDup (gen : generator) (k n : nat) :
  rng_ok gen -> NoDup (gen k n).
Proof.
  intros H. apply (Permutation_NoDup (Permutation_sym (H k n))), seq_NoDup.
Qed.

(** [df.sample] draws without replacement: with distinct index labels in
    the frame, no row is drawn twice, and every drawn row is a row of the
    frame with its label. *)
Theorem sample_without_replacement {A : Type} (gen : generator)
  (frac : number) (st : nat) (df : frame A) :
  rng_ok gen -> NoDup (labels df) ->
  NoDup (labels (fst (sample gen frac st df))) /\
  NoDup (fst (sample gen frac st df)) /\
  forall row, In row (fst (sample gen frac st df)) -> In row df.
Proof.
  intros Hg Hnd. cbn [sample fst].
  assert (Hl : NoDup (labels (iloc df (firstn (Z.to_nat (sample_size frac
                       (Z.of_nat (length df)))) (gen st (length df)))))).
  { unfold labels. rewrite iloc_map.
    apply iloc_NoDup; [exact Hnd|]. apply NoDup_firstn, rng_ok_NoDup, Hg. }
  split; [exact Hl|]. split.
  - unfold labels in Hl. now apply NoDup_map_inv in Hl.
  - intros row. apply iloc_In.
Qed.

Lemma sample_without_replacement_witness :
  rng_ok gen_rev /\ NoDup (labels ten_rows) /\
  NoDup (labels (fst (sample gen_rev (FloatLit float_0_3) 0 ten_rows))).
Proof.
  assert (Hnd : NoDup (labels ten_rows)).
  { change (labels ten_rows) with (seq 0 10). apply seq_NoDup. }
  split; [exact gen_rev_ok|]. split; [exact Hnd|].
  exact (proj1 (sample_without_replacement gen_rev (FloatLit float_0_3) 0
                  ten_rows gen_rev_ok Hnd)).
Defined.

(** ** The oversampling loop *)

Lemma oversample_S {A : Type} (gen : generator) (k st : nat) (df : frame A) :
  oversample gen (S k) st df =
  oversample gen k (snd (oversample_step gen st df))
             (fst (oversample_step gen st df)).
Proof.
  cbn [oversample]. now destruct (oversample_step gen st df).
Qed.

Lemma oversample_prefix {A : Type} (gen : generator) (iters st : nat)
  (df : frame A) :
  exists extra, values (fst (oversample gen iters st df)) = values df ++ extra /\
                incl extra (values df).
Proof.
  revert st df. induction iters as [|k IH]; intros st df.
  - exists []. cbn [oversample fst]. rewrite app_nil_r. split; [reflexivity|].
    intros x [].
  - rewrite oversample_S.
    pose proof (oversample_step_values gen st df) as Hv.
    destruct (oversample_step gen st df) as [df' st'] eqn:Es. cbn [fst snd] in *.
    destruct (IH st' df') as (extra & He & Hincl).
    exists (values (fst (sample gen (FloatLit float_0_3) st df)) ++ extra).
    assert (Hs : incl (values (fst (sample gen (FloatLit float_0_3) st df)))
                      (values df)).
    { intros x Hx. unfold values in *. apply in_map_iff in Hx as (row & <- & Hr).
      apply in_map. exact (sample_rows gen _ st df row Hr). }
    split.
    + rewrite He, Hv, <- app_assoc. reflexivity.
    + intros x Hx. apply in_app_or in Hx as [Hx|Hx]; [now apply Hs|].
      apply Hincl in Hx. rewrite Hv in Hx.
      apply in_app_or in Hx as [Hx|Hx]; [exact Hx|now apply Hs].
Qed.

Lemma oversample_members {A : Type} (gen : generator) (iters st : nat)
  (df : frame A) (x : A) :
  In x (values (fst (oversample gen iters st df))) <-> In x (values df).
Proof.
  destruct (oversample_prefix gen iters st df) as (extra & He & Hincl).
  rewrite He. split.
  - intros Hx. apply in_app_or in Hx as [Hx|Hx]; [exact Hx|now apply Hincl].
  - intros Hx. apply in_or_app. now left.
Qed.

(** Oversampling only adds copies: the rows of the frame stay first, in
    their order, every added row is one of them, and so the frame after any
    number of passes holds exactly the examples it held before. *)
Theorem oversample_copies {A : Type} (gen : generator) (iters st : nat)
  (df : frame A) :
  (exists extra, values (fst (oversample gen iters st df)) = values df ++ extra /\
                 incl extra (values df)) /\
  forall x, In x (values (fst (oversample gen iters st df))) <-> In x (values df).
Proof.
  split; [apply oversample_prefix|]. intros x. apply oversample_members.
Qed.

Lemma oversample_keeps_range_index {A : Type} (gen : generator) (k st : nat)
  (df : frame A) :
  labels df = seq 0 (length df) ->
  labels (fst (oversample gen k st df)) =
  seq 0 (length (fst (oversample gen k st df))).
Proof.
  revert st df. induction k as [|k IH]; intros st df H; [exact H|].
  rewrite oversample_S. apply IH, oversample_step_labels.
Qed.

(** After at least one pass the index of the frame is the fresh range
    [0 .. n-1], whatever labels the frame had before; in particular the
    labels are distinct. *)
Theorem oversample_range_index {A : Type} (gen : generator) (k st : nat)
  (df : frame A) :
  labels (fst (oversample gen (S k) st df)) =
  seq 0 (length (fst (oversample gen (S k) st df))) /\
  NoDup (labels (fst (oversample gen (S k) st df))).
Proof.
  assert (H : labels (fst (oversample gen (S k) st df)) =
              seq 0 (length (fst (oversample gen (S k) st df)))).
  { rewrite oversample_S. apply oversample_keeps_range_index, oversample_step_labels. }
  split; [exact H|]. rewrite H. apply seq_NoDup.
Qed.

Lemma oversample_length {A : Type} (gen : generator) (k st : nat)
  (df : frame A) :
  rng_ok gen ->
  length (fst (oversample gen k st df)) = Nat.iter k grow (length df).
Proof.
  intros Hg. revert st df. induction k as [|k IH]; intros st df; [reflexivity|].
  rewrite oversample_S, IH, Nat.iter_succ_r.
  now rewrite oversample_step_length.
Qed.

(** The size after the loop does not depend on the random draws: after [k]
    passes a frame of [n] rows has [grow] applied [k] times to [n] rows,
    and each pass at most doubles the size. *)
Theorem oversample_size {A : Type} (gen : generator) (k st : nat)
  (df : frame A) :
  rng_ok gen ->
  length (fst (oversample gen k st df)) = Nat.iter k grow (length df) /\
  (length df <= grow (length df) <= 2 * length df)%nat.
Proof.
  intros Hg. split; [now apply oversample_length|].
  unfold grow.
  pose proof (sample_size_0_3_le (Z.of_nat (length df)) ltac:(lia)). lia.
Qed.

Lemma oversample_size_witness :
  rng_ok gen_rev /\
  length (fst (oversample gen_rev 3 0 ten_rows)) = 22%nat.
Proof.
  split; [exact gen_rev_ok|].
  rewrite (proj1 (oversample_size gen_rev 3 0 ten_rows gen_rev_ok)).
  reflexivity.
Defined.

(** ** The size of a sample *)

Lemma round_half_even_nearest (num den q : Z) :
  0 < den -> (2 * q - 1) * den < 2 * num < (2 * q + 1) * den ->
  round_half_even num den = q.
Proof.
  intros Hden [Hlo Hhi].
  pose proof (Z.div_mod num den ltac:(lia)) as Hdm.
  pose proof (Z.mod_pos_bound num den Hden) as Hmod.
  assert (Hq : num / den = q \/ num / den = q - 1) by nia.
  unfold round_half_even.
  destruct Hq as [Hq|Hq]; rewrite Hq in *.
  - destruct (Z.ltb_spec (2 * (num mod den)) den); [reflexivity|nia].
  - destruct (Z.ltb_spec (2 * (num mod den)) den); [nia|].
    destruct (Z.ltb_spec den (2 * (num mod den))); [lia|nia].
Qed.

(** [df.sample(frac=0.3)] asks for the integer nearest to three tenths of
    the rows (within half a row), for frames below 2^49 rows. *)
Theorem sample_size_nearest (len : Z) :
  0 <= len < 2 ^ 49 ->
  3 * len - 5 <= 10 * sample_size (FloatLit float_0_3) len <= 3 * len + 5.
Proof.
  intros [Hlen Hbound]. change (2 ^ 49) with 562949953421312 in Hbound.
  unfold sample_size, py_round, fmul_int, float_0_3; cbn [mant expo].
  rewrite (round53_small len) by (change (2 ^ 53) with 9007199254740992; lia).
  set (m := 5404319552844595 * len).
  set (v := round53 m).
  pose proof (Z.div_mod (3 * len) 10 ltac:(lia)) as Hdm.
  pose proof (Z.mod_pos_bound (3 * len) 10 ltac:(lia)) as Hj.
  set (q := 3 * len / 10) in *. set (j := (3 * len) mod 10) in *.
  assert (Hq : 0 <= q) by (unfold q; apply Z.div_pos; lia).
  assert (H53 : 2 ^ 53 = 9007199254740992) by reflexivity.
  assert (H50 : 2 ^ 50 = 1125899906842624) by reflexivity.
  assert (H54 : 2 ^ 54 = 18014398509481984) by reflexivity.
  assert (Hv0 : 0 <= v) by (apply round53_nonneg; unfold m; lia).
  assert (Hup : v <= (16 * q + 16) * 2 ^ 50).
  { apply round53_upper; [rewrite H53; lia|lia|]. rewrite H50. unfold m. lia. }
  destruct (Z_lt_le_dec j 5) as [Hj4|Hj5].
  - (* below the half: rounds to q *)
    assert (Hhi : v <= (16 * q + 7) * 2 ^ 50).
    { apply round53_upper; [rewrite H53; lia|lia|]. rewrite H50. unfold m. lia. }
    assert (Hlo : q = 0 \/ (16 * q - 1) * 2 ^ 50 <= v).
    { destruct (Z.eq_dec q 0) as [E|E]; [now left|right].
      apply round53_lower; [rewrite H53; lia|lia|]. rewrite H50. unfold m. lia. }
    rewrite (round_half_even_nearest v (2 ^ 54) q); [lia|reflexivity|].
    rewrite H54. rewrite H50 in Hhi, Hlo. lia.
  - destruct (Z.eq_dec j 5) as [E5|N5].
    + (* a tie of the exact product: either neighbour *)
      assert (Hlo : q * 2 ^ 54 <= v).
      { apply round53_lower; [rewrite H53; lia|lia|]. rewrite H54. unfold m. lia. }
      pose proof (round_half_even_floor v (2 ^ 54)) as [Hfl Hce].
      assert (Hd1 : q <= v / 2 ^ 54).
      { apply Z.div_le_lower_bound; [reflexivity|]. lia. }
      assert (Hd2 : v / 2 ^ 54 <= q + 1).
      { apply Z.div_le_upper_bound; [reflexivity|]. rewrite H54, H50 in *. lia. }
      destruct (Z.eq_dec (v / 2 ^ 54) (q + 1)) as [Eq|Nq]; [|lia].
      assert (Hex : v mod 2 ^ 54 = 0).
      { pose proof (Z.div_mod v (2 ^ 54) ltac:(rewrite H54; lia)) as Hvm.
        pose proof (Z.mod_pos_bound v (2 ^ 54) ltac:(reflexivity)).
        rewrite Eq in Hvm. rewrite H54, H50 in *. lia. }
      rewrite round_half_even_exact by (reflexivity || assumption). lia.
    + (* above the half: rounds to q + 1 *)
      assert (Hlo : (16 * q + 9) * 2 ^ 50 <= v).
      { apply round53_lower; [rewrite H53; lia|lia|]. rewrite H50. unfold m. lia. }
      rewrite (round_half_even_nearest v (2 ^ 54) (q + 1)); [lia|reflexivity|].
      rewrite H54. rewrite H50 in Hup, Hlo. lia.
Qed.

Lemma sample_size_nearest_witness :
  0 <= 705 < 2 ^ 49 /\
  3 * 705 - 5 <= 10 * sample_size (FloatLit float_0_3) 705 <= 3 * 705 + 5.
Proof.
  assert (H : 0 <= 705 < 2 ^ 49) by (split; [lia|reflexivity]).
  exact (conj H (sample_size_nearest 705 H)).
Defined.

(** ** The sizes of the three parts *)

Lemma split_dataset_sizes {A : Type} (gen : generator) (st : nat)
  (df : frame A) :
  rng_ok gen -> Z.of_nat (length df) < 2 ^ 49 ->
  let s := split_dataset gen st df in
  let n := length df in
  let n_te := n_test_of float_0_1 n in
  let n_va := n_test_of float_0_1 (n - n_te) in
  length (test_data s) = n_te /\
  length (validation_data s) = n_va /\
  length (training_data s) = (n - n_te - n_va)%nat.
Proof.
  intros Hg Hn. unfold split_dataset.
  pose proof (sample_all gen st df Hg) as Hsh.
  destruct (sample gen (IntLit 1) st df) as [shuffled st1]. cbn [fst] in Hsh.
  pose proof (train_test_split_sizes gen st1 shuffled Hg) as Hs1.
  destruct (train_test_split gen st1 shuffled) as [[tmp test] st2].
  cbn [fst snd] in Hs1.
  pose proof (train_test_split_sizes gen st2 tmp Hg) as Hs2.
  destruct (train_test_split gen st2 tmp) as [[train valid] st3].
  cbn [fst snd] in Hs2. cbn [training_data validation_data test_data]. cbv zeta.
  rewrite (Permutation_length Hsh) in Hs1.
  destruct (Hs1 (n_test_le _ Hn)) as [Hte Htmp].
  rewrite Htmp in Hs2.
  assert (Hn' : Z.of_nat (length df - n_test_of float_0_1 (length df)) < 2 ^ 49) by lia.
  destruct (Hs2 (n_test_le _ Hn')) as [Hva Htr].
  now rewrite Hte, Hva, Htr.
Qed.

(** With at least three rows (and fewer than 2^49) every part of the two
    nested splits is non-empty. *)
Theorem split_dataset_nonempty {A : Type} (gen : generator) (st : nat)
  (df : frame A) :
  rng_ok gen -> (3 <= length df)%nat -> Z.of_nat (length df) < 2 ^ 49 ->
  let s := split_dataset gen st df in
  (1 <= length (training_data s))%nat /\
  (1 <= length (validation_data s))%nat /\
  (1 <= length (test_data s))%nat.
Proof.
  intros Hg H3 Hn. cbv zeta.
  destruct (split_dataset_sizes gen st df Hg Hn) as (Hte & Hva & Htr).
  cbv zeta in Hte, Hva, Htr.
  set (s := split_dataset gen st df) in *.
  set (n := length df) in *.
  pose proof (n_test_tenth n Hn) as Ht1.
  assert (Hn' : Z.of_nat (n - n_test_of float_0_1 n) < 2 ^ 49) by lia.
  pose proof (n_test_tenth _ Hn') as Ht2.
  rewrite Hte, Hva, Htr. lia.
Qed.

Lemma split_dataset_nonempty_witness :
  rng_ok gen_rev /\ (3 <= length ten_rows)%nat /\
  Z.of_nat (length ten_rows) < 2 ^ 49 /\
  (1 <= length (training_data (split_dataset gen_rev 0 ten_rows)))%nat.
Proof.
  assert (H3 : (3 <= length ten_rows)%nat) by (cbn; lia).
  assert (Hn : Z.of_nat (length ten_rows) < 2 ^ 49) by reflexivity.
  split; [exact gen_rev_ok|]. split; [exact H3|]. split; [exact Hn|].
  apply (split_dataset_nonempty gen_rev 0 ten_rows gen_rev_ok H3 Hn).
Defined.

(** ** The examples of the three parts *)

Lemma parts_values {A : Type} (tr va te whole : frame A) (e : A) :
  Permutation (tr ++ va ++ te) whole ->
  (In e (values tr) \/ In e (values va) \/ In e (values te)) <->
  In e (values whole).
Proof.
  intros Hp. unfold values.
  rewrite <- (Permutation_map snd Hp), !map_app, !in_app_iff. tauto.
Qed.

Lemma augmented_examples (gen : generator) (rows : list triple) (e : example) :
  In e (values (fst (augmented gen rows))) <->
  In e (values (get_dummies (read_csv rows))).
Proof. unfold augmented. apply oversample_members. Qed.

Lemma pipeline_Permutation (gen : generator) (rows : list triple) :
  rng_ok gen ->
  Permutation (training_data (pipeline gen rows) ++
               validation_data (pipeline gen rows) ++
               test_data (pipeline gen rows))
              (fst (augmented gen rows)).
Proof.
  intros Hg. unfold pipeline.
  exact (proj1 (split_dataset_parts gen (snd (augmented gen rows))
                  (fst (augmented gen rows)) Hg (augmented_labels gen rows))).
Qed.

(** The pipeline neither invents nor loses an example: an example is in one
    of the three parts exactly when it is the encoding of a triple of the
    input. *)
Theorem pipeline_examples (gen : generator) (rows : list triple)
  (e : example) :
  rng_ok gen ->
  (In e (values (training_data (pipeline gen rows))) \/
   In e (values (validation_data (pipeline gen rows))) \/
   In e (values (test_data (pipeline gen rows)))) <->
  exists t, In t rows /\
            e = encode_triple (relation_columns (read_csv rows)) t.
Proof.
  intros Hg.
  etransitivity; [exact (parts_values _ _ _ _ e (pipeline_Permutation gen rows Hg))|].
  etransitivity; [exact (augmented_examples gen rows e)|].
  rewrite get_dummies_rows, read_csv_values, in_map_iff.
  split; intros (t & H1 & H2); exists t; auto.
Qed.

Lemma pipeline_examples_witness :
  rng_ok gen_rev /\
  (In (encode_triple (relation_columns (read_csv family_rows))
                     (Triple "vic" "fa" "col"))
      (values (training_data (pipeline gen_rev family_rows))) \/
   In (encode_triple (relation_columns (read_csv family_rows))
                     (Triple "vic" "fa" "col"))
      (values (validation_data (pipeline gen_rev family_rows))) \/
   In (encode_triple (relation_columns (read_csv family_rows))
                     (Triple "vic" "fa" "col"))
      (values (test_data (pipeline gen_rev family_rows)))).
Proof.
  split; [exact gen_rev_ok|].
  apply (pipeline_examples gen_rev family_rows _ gen_rev_ok).
  exists (Triple "vic" "fa" "col"). split; [|reflexivity].
  right. right. right. now left.
Defined.

(** ** The encoder *)

Lemma astype_int_ints (zs : list Z) : astype_int (map PyInt zs) = Returned zs.
Proof.
  induction zs as [|z zs IH]; [reflexivity|]. cbn. now rewrite IH.
Qed.

Lemma astype_int_raised (cells : list pyval) (err : error) :
  astype_int cells = Raised err -> err = CastError /\ In PyNone cells.
Proof.
  induction cells as [|c cells IH]; [discriminate|].
  destruct c as [|z]; cbn.
  - intros E. injection E as <-. split; [reflexivity|now left].
  - destruct (astype_int cells) as [zs|e'] eqn:Ea; cbn; [discriminate|].
    intros E. injection E as <-. destruct (IH eq_refl) as [H1 H2].
    split; [exact H1|now right].
Qed.

Lemma get_present (vocab : list (string * Z)) (k : string) :
  In k (keys vocab) -> exists i, get k vocab = Some i.
Proof.
  intros H. destruct (get k vocab) as [i|] eqn:E; [now exists i|].
  apply get_None in E. contradiction.
Qed.

Lemma get_Some_key (vocab : list (string * Z)) (k : string) (i : Z) :
  get k vocab = Some i -> In k (keys vocab).
Proof.
  induction vocab as [|[k' v] r IH]; cbn; [discriminate|].
  destruct (String.eqb_spec k' k) as [->|Hne]; [now left|].
  intros H. right. now apply IH.
Qed.

Lemma encode_frame_present (vocab : list (string * Z)) (df : frame example) :
  Forall (present vocab) (values df) ->
  exists X, encode_frame vocab df = Returned X /\
            Forall2 (encoded_as vocab) (values df) X.
Proof.
  unfold encode_frame, encode_lookup.
  rewrite (sequence_returned
             (fun x => match get (lower x) vocab with
                       | Some i => PyInt i
                       | None => PyNone
                       end)).
  cbn [bind]. generalize (values df). clear df.
  intros l Hall.
  assert (H : exists X : list (list Z),
             Forall2 (encoded_as vocab) l X /\
             map (fun x => match get (lower x) vocab with
                           | Some i => PyInt i
                           | None => PyNone
                           end)
                 (flat_map (fun e => [ex_head e; ex_tail e]) l) =
             map PyInt (concat X)).
  { induction Hall as [|e l [Hh Ht] _ (X & HX & HE)].
    - exists []. split; [constructor|reflexivity].
    - destruct (get_present _ _ Hh) as [h Eh]. destruct (get_present _ _ Ht) as [t Et].
      exists ([h; t] :: X). split.
      + constructor; [now exists h, t|exact HX].
      + cbn [flat_map app map concat]. now rewrite Eh, Et, HE. }
  destruct H as (X & HX & HE). exists X. rewrite HE, astype_int_ints. cbn [bind].
  split; [|exact HX]. f_equal.
  clear HE Hall. induction HX as [|e row l X (h & t & -> & _) _ IH]; [reflexivity|].
  cbn [concat app]. simpl. f_equal. exact IH.
Qed.

(** The encoder returns exactly when every head and tail cell of the frame
    is a key of the vocabulary in lower case: it then gives one [[head;
    tail]] row of stored indices per example, aligned with the relation
    columns; otherwise it raises the cast error, and no other error. *)
Theorem encode_frame_outcome (vocab : list (string * Z)) (df : frame example) :
  ((exists X, encode_frame vocab df = Returned X) <->
   Forall (present vocab) (values df)) /\
  (forall X, encode_frame vocab df = Returned X ->
             length X = length (filter_relation df) /\
             Forall2 (encoded_as vocab) (values df) X) /\
  (forall err, encode_frame vocab df = Raised err -> err = CastError).
Proof.
  assert (Hback : forall X, encode_frame vocab df = Returned X ->
                            Forall (present vocab) (values df)).
  { intros X HX. apply Forall_forall. intros e He.
    assert (Hcell : forall x, x = ex_head e \/ x = ex_tail e ->
                              In (lower x) (keys vocab)).
    { intros x Hx.
      destruct (get (lower x) vocab) as [i|] eqn:E.
      - exact (get_Some_key _ _ _ E).
      - exfalso. revert HX. unfold encode_frame, encode_lookup.
        rewrite (sequence_returned
                   (fun x => match get (lower x) vocab with
                             | Some i => PyInt i
                             | None => PyNone
                             end)).
        cbn [bind]. rewrite astype_int_null; [discriminate|].
        apply in_map_iff. exists x. rewrite E. split; [reflexivity|].
        apply in_flat_map. exists e. split; [exact He|].
        cbn. destruct Hx as [-> | ->]; auto. }
    split; apply Hcell; auto. }
  split; [|split].
  - split; [intros (X & HX); exact (Hback X HX)|].
    intros H. destruct (encode_frame_present vocab df H) as (X & HX & _).
    now exists X.
  - intros X HX. destruct (encode_frame_present vocab df (Hback X HX)) as (X' & HX' & HF).
    assert (X' = X) by congruence. subst X'.
    split; [|exact HF].
    unfold filter_relation. rewrite length_map.
    symmetry. exact (Forall2_length HF).
  - intros err. unfold encode_frame, encode_lookup.
    rewrite (sequence_returned
               (fun x => match get (lower x) vocab with
                         | Some i => PyInt i
                         | None => PyNone
                         end)).
    cbn [bind].
    destruct (astype_int _) as [zs|e'] eqn:Ea; cbn [bind]; [discriminate|].
    intros E. injection E as <-. exact (proj1 (astype_int_raised _ _ Ea)).
Qed.




(** ** Shapes and reach of the forward pass *)

Section ForwardShapes.

Variable F : Type.
Variable Fzero : F.
Variable Fadd Fmul : F -> F -> F.
Variable Fdiv_count : F -> nat -> F.
Variable sigmoid : F -> F.
Variable out_of_range : outcome (list F).

Lemma vadd_length (u v : list F) :
  length (vadd F Fadd u v) = Nat.min (length u) (length v).
Proof.
  revert v. induction u as [|a u IH]; intros [|b v]; cbn; try reflexivity.
  now rewrite IH.
Qed.

Lemma Dense_length (kernel : list (list F)) (bias x : list F) :
  Forall (fun r => length r = length bias) kernel ->
  length (Dense F Fzero Fadd Fmul kernel bias x) = length bias.
Proof.
  intros Hk. unfold Dense. rewrite vadd_length.
  assert (H : forall (xs : list (F * list F)) (acc : list F),
             Forall (fun xw => length (snd xw) = length bias) xs ->
             length acc = length bias ->
             length (fold_left (fun acc xw => vadd F Fadd acc (map (Fmul (fst xw)) (snd xw)))
                               xs acc) = length bias).
  { induction xs as [|xw xs IH]; intros acc Hxs Hacc; [exact Hacc|].
    inversion Hxs as [|? ? Hw Hrest]; subst. cbn [fold_left]. apply IH; [exact Hrest|].
    rewrite vadd_length, length_map, Hacc, Hw. apply Nat.min_id. }
  rewrite H; [apply Nat.min_id| |apply length_map].
  apply Forall_forall. intros [a w] Hin. cbn [snd].
  apply in_combine_r in Hin. rewrite Forall_forall in Hk. now apply Hk.
Qed.

Lemma Embedding_valid (E : list (list F)) (i : Z) :
  valid_row (Z.of_nat (length E)) i = true ->
  exists r, nth_error E (Z.to_nat i) = Some r /\
            Embedding F out_of_range E i = Returned r.
Proof.
  intros Hv. unfold Embedding. rewrite Hv.
  unfold valid_row in Hv. apply andb_true_iff in Hv as [H0 H1].
  apply Z.leb_le in H0. apply Z.ltb_lt in H1.
  destruct (nth_error E (Z.to_nat i)) as [r|] eqn:En; [now exists r|].
  apply nth_error_None in En. lia.
Qed.

Lemma Embedding_invalid (E : list (list F)) (i : Z) :
  valid_row (Z.of_nat (length E)) i = false ->
  Embedding F out_of_range E i = out_of_range.
Proof. intros Hv. unfold Embedding. now rewrite Hv. Qed.

Lemma score_valid (E kernel : list (list F)) (bias : list F) (h t : Z) :
  Forall (fun r => length r = length bias) kernel ->
  valid_row (Z.of_nat (length E)) h = true ->
  valid_row (Z.of_nat (length E)) t = true ->
  exists v,
    score F Fzero Fadd Fmul Fdiv_count sigmoid out_of_range E kernel bias h t
    = Returned v /\ length v = length bias.
Proof.
  intros Hk Hh Ht.
  destruct (Embedding_valid E h Hh) as (a & _ & Ea).
  destruct (Embedding_valid E t Ht) as (b & _ & Eb).
  unfold score, forward. cbn [map sequence]. rewrite Ea, Eb. cbn [bind].
  eexists. split; [reflexivity|].
  unfold Activation_sigmoid. rewrite length_map. now apply Dense_length.
Qed.

Lemma score_invalid (E kernel : list (list F)) (bias : list F) (h t : Z)
  (err : error) :
  out_of_range = Raised err ->
  valid_row (Z.of_nat (length E)) h = false \/
  valid_row (Z.of_nat (length E)) t = false ->
  score F Fzero Fadd Fmul Fdiv_count sigmoid out_of_range E kernel bias h t
  = Raised err.
Proof.
  intros Hoob Hbad. unfold score, forward. cbn [map sequence].
  destruct (valid_row (Z.of_nat (length E)) h) eqn:Hh.
  - destruct Hbad as [Hbad|Hbad]; [discriminate Hbad|].
    destruct (Embedding_valid E h Hh) as (a & _ & Ea).
    rewrite Ea, (Embedding_invalid E t Hbad), Hoob. reflexivity.
  - rewrite (Embedding_invalid E h Hh), Hoob. reflexivity.
Qed.

(** The score of a pair reads only the two rows of the embedding matrix at
    its indices. *)
Lemma score_rows (E E' kernel : list (list F)) (bias : list F) (h t : Z) :
  length E = length E' ->
  nth_error E (Z.to_nat h) = nth_error E' (Z.to_nat h) ->
  nth_error E (Z.to_nat t) = nth_error E' (Z.to_nat t) ->
  score F Fzero Fadd Fmul Fdiv_count sigmoid out_of_range E kernel bias h t =
  score F Fzero Fadd Fmul Fdiv_count sigmoid out_of_range E' kernel bias h t.
Proof.
  intros Hlen Hh Ht. unfold score, forward. cbn [map sequence].
  unfold Embedding. now rewrite Hlen, Hh, Ht.
Qed.

(** With both indices among the rows of the embedding matrix and every
    kernel row as long as the bias, the forward pass returns one score per
    output unit; with a backend that raises on a bad index, it raises as
    soon as one of the two indices is not a row. *)
Theorem score_returns (E kernel : list (list F)) (bias : list F) (h t : Z) :
  Forall (fun r => length r = length bias) kernel ->
  (valid_row (Z.of_nat (length E)) h = true ->
   valid_row (Z.of_nat (length E)) t = true ->
   exists v,
     score F Fzero Fadd Fmul Fdiv_count sigmoid out_of_range E kernel bias h t
     = Returned v /\ length v = length bias) /\
  (forall err, out_of_range = Raised err ->
     valid_row (Z.of_nat (length E)) h = false \/
     valid_row (Z.of_nat (length E)) t = false ->
     score F Fzero Fadd Fmul Fdiv_count sigmoid out_of_range E kernel bias h t
     = Raised err).
Proof.
  intros Hk. split.
  - now apply score_valid.
  - intros err. apply score_invalid.
Qed.

End ForwardShapes.

Lemma score_returns_witness :
  Forall (fun r => length r = length b3) K3 /\
  valid_row (Z.of_nat (length E3)) 0 = true /\
  valid_row (Z.of_nat (length E3)) 2 = true /\
  exists v, score_real (Raised OutOfRange) E3 K3 b3 0 2 = Returned v /\
            length v = 3%nat.
Proof.
  assert (Hk : Forall (fun r => length r = length b3) K3)
    by (repeat constructor).
  split; [exact Hk|]. split; [reflexivity|]. split; [reflexivity|].
  exact (proj1 (score_returns R 0%R Rplus Rmult (fun x n => (x / INR n)%R)
                  sigmoid_real (Raised OutOfRange) E3 K3 b3 0 2 Hk)
               eq_refl eq_refl).
Defined.

(** ** Row 0 and the plot *)

(** No encoded pair reads row 0 of the embedding matrix: replacing that row
    changes no score of a pair the encoder can emit.  The plot, however,
    shows row 0 as the point of the word with index 1. *)
Theorem row_zero_unread (families : list triple) (F : Type) (Fzero : F)
  (Fadd Fmul : F -> F -> F) (Fdiv_count : F -> nat -> F) (sigmoid : F -> F)
  (out_of_range : outcome (list F))
  (row row' : list F) (rest kernel : list (list F)) (bias : list F) :
  let vocab := entities_index families in
  (forall x y h t,
     encode_lookup vocab x = Returned (PyInt h) ->
     encode_lookup vocab y = Returned (PyInt t) ->
     score F Fzero Fadd Fmul Fdiv_count sigmoid out_of_range
           (row :: rest) kernel bias h t =
     score F Fzero Fadd Fmul Fdiv_count sigmoid out_of_range
           (row' :: rest) kernel bias h t) /\
  (forall w, get w vocab = Some 1 ->
             plot_token (row :: rest) vocab w = Some row).
Proof.
  cbv zeta. split.
  - intros x y h t Hx Hy.
    assert (Hpos : forall z i, encode_lookup (entities_index families) z
                               = Returned (PyInt i) -> 1 <= i).
    { intros z i H. unfold encode_lookup in H.
      destruct (get (lower z) (entities_index families)) as [j|] eqn:E;
        [|discriminate H].
      injection H as <-.
      exact (proj1 (proj1 (word_index_bijection (entities families)) _ _ E)). }
    pose proof (Hpos _ _ Hx) as Hh. pose proof (Hpos _ _ Hy) as Ht.
    apply score_rows; [reflexivity| |].
    + replace (Z.to_nat h) with (S (Z.to_nat (h - 1))) by lia. reflexivity.
    + replace (Z.to_nat t) with (S (Z.to_nat (t - 1))) by lia. reflexivity.
  - intros w Hw. unfold plot_token. rewrite Hw. unfold numpy_row.
    cbn [length]. rewrite Nat2Z.inj_succ.
    destruct (Z.leb_spec (- Z.succ (Z.of_nat (length rest))) (1 - 1)); [|lia].
    destruct (Z.ltb_spec (1 - 1) (Z.succ (Z.of_nat (length rest)))); [|lia].
    reflexivity.
Qed.

Lemma collect_rows {F : Type} (E : list (list F)) (vocab : list (string * Z))
  (ws : list string) :
  (forall v w, get w vocab = Some v <->
               1 <= v /\ nth_error ws (Z.to_nat (v - 1)) = Some w) ->
  NoDup ws ->
  forall pre suf Epre Esuf,
    ws = pre ++ suf -> E = Epre ++ Esuf ->
    length Epre = length pre -> length Esuf = length suf ->
    collect (plot_token E vocab) suf = Some Esuf.
Proof.
  intros Hget Hnd pre suf. revert pre.
  induction suf as [|w suf IH]; intros pre Epre Esuf Hws HE Hp Hs.
  - destruct Esuf; [reflexivity|discriminate Hs].
  - destruct Esuf as [|r Esuf]; [discriminate Hs|]. cbn [collect].
    assert (Hw : plot_token E vocab w = Some r).
    { unfold plot_token.
      assert (Hg : get w vocab = Some (Z.of_nat (length pre) + 1)).
      { apply Hget. split; [lia|].
        replace (Z.to_nat (Z.of_nat (length pre) + 1 - 1)) with (length pre) by lia.
        rewrite Hws, nth_error_app2, Nat.sub_diag by lia. reflexivity. }
      rewrite Hg. unfold numpy_row.
      replace (Z.of_nat (length pre) + 1 - 1) with (Z.of_nat (length pre)) by lia.
      assert (Hlen : (length pre < length E)%nat).
      { rewrite HE, length_app, Hp. cbn [length]. lia. }
      destruct (Z.leb_spec (- Z.of_nat (length E)) (Z.of_nat (length pre))); [|lia].
      destruct (Z.ltb_spec (Z.of_nat (length pre)) (Z.of_nat (length E))); [|lia].
      destruct (Z.ltb_spec (Z.of_nat (length pre)) 0); [lia|].
      cbn [andb]. rewrite Nat2Z.id, HE, nth_error_app2, Hp, Nat.sub_diag by lia.
      reflexivity. }
    rewrite Hw.
    rewrite (IH (pre ++ [w]) (Epre ++ [r]) Esuf).
    + reflexivity.
    + now rewrite <- app_assoc.
    + now rewrite <- app_assoc.
    + rewrite !length_app. cbn [length]. lia.
    + cbn [length] in Hs. lia.
Qed.

Lemma collect_map {A B : Type} (f : A -> option B) (g : A -> B)
  (l : list A) :
  (forall a, In a l -> f a = Some (g a)) -> collect f l = Some (map g l).
Proof.
  induction l as [|a l IH]; intros H; [reflexivity|].
  cbn [collect map]. rewrite (H a (or_introl eq_refl)), IH; [reflexivity|].
  intros b Hb. apply H. now right.
Qed.

(** The row read for a key of the vocabulary, when the matrix has one row
    per key. *)
Lemma plot_token_key {F : Type} (texts : list string) (E : list (list F))
  (w : string) :
  Z.of_nat (length E) = input_dim (word_index texts) ->
  In w (keys (word_index texts)) ->
  exists i row, get w (word_index texts) = Some i /\
                nth_error E (Z.to_nat (i - 1)) = Some row /\
                plot_token E (word_index texts) w = Some row.
Proof.
  intros Hlen Hw.
  destruct (get w (word_index texts)) as [i|] eqn:G;
    [|exfalso; exact (proj1 (get_None _ _) G Hw)].
  pose proof (proj1 (word_index_bijection texts) w i G) as Hi.
  cbv zeta in Hi. rewrite <- Hlen in Hi.
  destruct (nth_error E (Z.to_nat (i - 1))) as [row|] eqn:En;
    [|apply nth_error_None in En; lia].
  exists i, row. split; [reflexivity|]. split; [exact En|].
  unfold plot_token. rewrite G. unfold numpy_row.
  destruct (Z.leb_spec (- Z.of_nat (length E)) (i - 1)); [|lia].
  destruct (Z.ltb_spec (i - 1) (Z.of_nat (length E))); [|lia].
  destruct (Z.ltb_spec (i - 1) 0); [lia|]. exact En.
Qed.

(** The loop before the plot never hits an index error, whatever the order
    in which the dictionary yields its keys: the word with index [i] is
    paired with row [i - 1] of the embedding matrix, and every row is drawn
    once, so the points are a rearrangement of the rows. *)
Theorem plot_points_rows {F : Type} (families : list triple)
  (E : list (list F)) (order : list string) :
  Z.of_nat (length E) = input_dim (entities_index families) ->
  Permutation order (keys (entities_index families)) ->
  exists tokens,
    plot_points E (entities_index families) order = Some (order, tokens) /\
    Forall2 (fun w row =>
               exists i, get w (entities_index families) = Some i /\
                         nth_error E (Z.to_nat (i - 1)) = Some row)
            order tokens /\
    Permutation tokens E.
Proof.
  unfold entities_index. set (texts := entities families).
  intros Hlen Hperm.
  set (g := fun w => match plot_token E (word_index texts) w with
                     | Some row => row
                     | None => []
                     end).
  assert (Hg : forall w, In w (keys (word_index texts)) ->
                         plot_token E (word_index texts) w = Some (g w)).
  { intros w Hw. destruct (plot_token_key texts E w Hlen Hw) as (i & row & _ & _ & Hp).
    unfold g. now rewrite Hp. }
  assert (HE : E = map g (keys (word_index texts))).
  { pose proof (collect_rows E (word_index texts) (keys (word_index texts))
                  (fun v w => word_index_get texts w v)
                  (proj1 (word_index_keys texts))
                  [] (keys (word_index texts)) [] E eq_refl eq_refl eq_refl) as Hc.
    rewrite (collect_map _ g _ Hg) in Hc.
    assert (Hl : length E = length (keys (word_index texts)))
      by (unfold input_dim in Hlen; lia).
    specialize (Hc Hl). injection Hc as Hc. symmetry. exact Hc. }
  exists (map g order). split; [|split].
  - unfold plot_points. rewrite (collect_map _ g); [reflexivity|].
    intros w Hw. apply Hg. exact (Permutation_in w Hperm Hw).
  - apply Forall2_map_In. intros w Hw.
    destruct (plot_token_key texts E w Hlen (Permutation_in w Hperm Hw))
      as (i & row & Hi & Hrow & Hp).
    exists i. split; [exact Hi|]. unfold g. now rewrite Hp.
  - apply (Permutation_trans (Permutation_map g Hperm)).
    rewrite <- HE. apply Permutation_refl.
Qed.

Lemma plot_points_rows_witness :
  let vocab := entities_index [Triple "b" "r" "a"; Triple "c" "r" "a"]%string in
  Z.of_nat (length E3) = input_dim vocab /\
  Permutation ["c"; "b"; "a"]%string (keys vocab) /\
  exists tokens,
    plot_points E3 vocab ["c"; "b"; "a"]%string =
    Some (["c"; "b"; "a"]%string, tokens) /\
    Permutation tokens E3.
Proof.
  cbv zeta.
  assert (Hp : Permutation ["c"; "b"; "a"]%string
                 (keys (entities_index
                          [Triple "b" "r" "a"; Triple "c" "r" "a"]%string)))
    by exact (Permutation_sym (Permutation_rev ["a"; "b"; "c"]%string)).
  split; [reflexivity|]. split; [exact Hp|].
  destruct (plot_points_rows [Triple "b" "r" "a"; Triple "c" "r" "a"]%string
              E3 ["c"; "b"; "a"]%string eq_refl Hp) as (tokens & H1 & _ & H3).
  exists tokens. split; [exact H1|exact H3].
Defined.

(** ** The last entity *)

(** The entity with the highest index has no row of its own: with an
    embedding matrix of as many rows as the vocabulary has keys, the outcome
    for a pair that holds this index is the same for all matrices that agree
    on the partner's row, and with a backend that raises on a bad index
    every such pair raises. *)
Theorem last_entity_has_no_row (families : list triple) (F : Type)
  (Fzero : F) (Fadd Fmul : F -> F -> F) (Fdiv_count : F -> nat -> F)
  (sigmoid : F -> F) (out_of_range : outcome (list F))
  (E E' kernel : list (list F)) (bias : list F) (t : Z) :
  let vocab := entities_index families in
  let N := input_dim vocab in
  Z.of_nat (length E) = N -> Z.of_nat (length E') = N ->
  nth_error E (Z.to_nat t) = nth_error E' (Z.to_nat t) ->
  (0 < N -> exists w, get w vocab = Some N) /\
  score F Fzero Fadd Fmul Fdiv_count sigmoid out_of_range E kernel bias N t =
  score F Fzero Fadd Fmul Fdiv_count sigmoid out_of_range E' kernel bias N t /\
  (forall err, out_of_range = Raised err ->
     score F Fzero Fadd Fmul Fdiv_count sigmoid out_of_range E kernel bias N t
     = Raised err /\
     score F Fzero Fadd Fmul Fdiv_count sigmoid out_of_range E kernel bias t N
     = Raised err).
Proof.
  cbv zeta. intros HE HE' Ht.
  set (N := input_dim (entities_index families)) in *.
  assert (HN : 0 <= N) by (unfold N, input_dim; lia).
  assert (Hbad : valid_row (Z.of_nat (length E)) N = false).
  { rewrite HE. unfold valid_row. rewrite Z.ltb_irrefl. apply andb_false_r. }
  split; [|split].
  - intros Hpos.
    exact (proj2 (proj2 (word_index_bijection (entities families))) N
                 ltac:(fold (entities_index families); fold N; lia)).
  - apply score_rows; [lia| |exact Ht].
    transitivity (@None (list F)); [|symmetry]; apply nth_error_None; lia.
  - intros err Hoob.
    split; apply score_invalid; auto.
Qed.

Lemma last_entity_has_no_row_witness :
  let fam := [Triple "b" "r" "a"; Triple "c" "r" "a"]%string in
  Z.of_nat (length E3) = input_dim (entities_index fam) /\
  score_real (Raised OutOfRange) E3 K3 b3 3 1 = Raised OutOfRange.
Proof.
  cbv zeta. split; [reflexivity|].
  destruct (last_entity_has_no_row
              [Triple "b" "r" "a"; Triple "c" "r" "a"]%string
              R 0%R Rplus Rmult (fun x n => (x / INR n)%R) sigmoid_real
              (Raised OutOfRange) E3 E3 K3 b3 1 eq_refl eq_refl eq_refl)
    as (_ & _ & H).
  exact (proj1 (H OutOfRange eq_refl)).
Defined.

(** ** Repeated examples *)

Lemma iter_grow_ge (k n : nat) : (n <= Nat.iter k grow n)%nat.
Proof.
  induction k as [|k IH]; [cbn; lia|].
  rewrite Nat.iter_succ. unfold grow at 1. lia.
Qed.

(** Oversampling always repeats examples: from two input triples on, the
    frame after one or more passes is longer than the input, so it holds
    some example more than once. *)
Theorem oversample_repeats (gen : generator) (rows : list triple)
  (iters st : nat) :
  rng_ok gen -> (2 <= length rows)%nat -> (1 <= iters)%nat ->
  (length rows < length (fst (oversample gen iters st (get_dummies (read_csv rows)))))%nat /\
  ~ NoDup (values (fst (oversample gen iters st (get_dummies (read_csv rows))))).
Proof.
  intros Hg H2 Hi.
  set (df := get_dummies (read_csv rows)).
  assert (Hlen : length df = length rows).
  { unfold df. rewrite <- (length_map snd (get_dummies (read_csv rows))).
    fold (values (get_dummies (read_csv rows))).
    rewrite get_dummies_rows, length_map, read_csv_values. reflexivity. }
  assert (Hmore : (length rows < length (fst (oversample gen iters st df)))%nat).
  { rewrite (oversample_length gen iters st df Hg), Hlen.
    destruct iters as [|k]; [lia|].
    rewrite Nat.iter_succ_r.
    pose proof (iter_grow_ge k (grow (length rows))).
    assert (length rows < grow (length rows))%nat; [|lia].
    unfold grow.
    pose proof (sample_size_0_3_pos (Z.of_nat (length rows)) ltac:(lia)). lia. }
  split; [exact Hmore|].
  intros Hnd.
  assert (Hincl : incl (values (fst (oversample gen iters st df))) (values df)).
  { intros x Hx. exact (proj1 (oversample_members gen iters st df x) Hx). }
  pose proof (NoDup_incl_length Hnd Hincl) as Hle.
  unfold values in Hle at 2. rewrite length_map, Hlen in Hle.
  unfold values in Hle. rewrite length_map in Hle. lia.
Qed.

Lemma oversample_repeats_witness :
  rng_ok gen_rev /\ (2 <= length family_rows)%nat /\
  ~ NoDup (values (fst (oversample gen_rev 2 0 (get_dummies (read_csv family_rows))))).
Proof.
  split; [exact gen_rev_ok|]. split; [cbn; lia|].
  apply (oversample_repeats gen_rev family_rows 2 0 gen_rev_ok); cbn; lia.
Defined.
